(** * s3-janitor: a shallow embedding of [janitor.py]

    [purge] clears one bucket: it reads the date once, walks the paginated
    listing, queues the keys of every object whose [LastModified] is at or
    before the cutoff and hands the queued keys to [delete_objects], either
    page by page or in chunks of 1000 once the listing is exhausted.  [do]
    resolves the buckets, submits one [purge] per bucket to a thread pool and
    logs the exception of every job that failed.

    Timestamps are integers: microseconds since 0001-01-01T00:00:00 UTC
    (the resolution and the origin of Python's [datetime]); dates are
    proleptic ordinals ([date.toordinal]).  The storage service and the
    clock are an explicit [world] that answers as a function of the history
    of the job, and every call and log line is recorded in a trace.

    Left out: the construction of the boto3 client (the bucket, the
    credentials and the endpoint of a job are its [world]), the names of the
    loggers, and argument parsing.  The thread pool is a list of jobs, each
    run on the world of its bucket from an empty history, since a job shares
    nothing with the others; the order in which the pool hands them back is
    a parameter.

    The file has four parts: the program and the vocabulary to speak about
    its runs, the lemmas, the theorems for the claims C1 to C10, and further
    properties of [purge] and [do], X1 to X19. *)

From Stdlib Require Import Ascii String DecimalString ZArith Bool Lia Arith List
  Permutation.
Import ListNotations.
Local Open Scope string_scope.
Local Open Scope list_scope.

(** ** Data *)

(** One entry of [page['Contents']]. *)
Record obj := mkObj { Key : string; LastModified : Z }.

(** A listing page is a dict; [Contents] is [None] when the key is absent. *)
Record page := mkPage { Contents : option (list obj) }.

(** The exceptions [purge] can end with (all subclasses of [Exception]). *)
Inductive exn :=
| KeyError (k : string)
| OverflowError
| ClientError (what : string).

(** [BaseException]: an [Exception], or [SystemExit], which
    [except Exception] does not catch. *)
Inductive base_exn :=
| Exc (e : exn)
| SystemExit (msg : string).

(** What one step of the paginator gives: a page, or an exception. *)
Inductive fetch :=
| Yield (p : page)
| Fail (e : exn).

Inductive msg :=
| Queued (key : string)
| Found (n i : nat)
| DeletingQueue (i n : nat)
| TotalQueued (n : nat)
| ChunksFormed (chunks n : nat)
| DeletingChunk (i chunks n : nat)
| Finished (total : nat)
| DryRunMode
| CutoffDate (day : Z)
| Exception (bucket : string) (e : exn).

Inductive event :=
| Today (d : Z)
| ListObjects (i : nat) (r : fetch)
| DeleteObjects (keys : list string) (r : option exn)
| ListBuckets
| Log (m : msg).

(** The storage service and the clock as one job sees them.  The date and
    the answer of a delete call may depend on everything that happened
    before (the history), so the date can change while a job runs. *)
Record world := mkWorld {
  date_today : list event -> Z;
  paginate : list fetch;
  delete_objects : list event -> list string -> option exn
}.

(** ** The monad of the embedding: history in, result and new events out *)

Definition M (E A : Type) : Type := list event -> (E + A) * list event.

Definition ret {E A} (a : A) : M E A := fun _ => (inr a, []).

Definition raise {E A} (e : E) : M E A := fun _ => (inl e, []).

Definition bind {E A B} (m : M E A) (f : A -> M E B) : M E B :=
  fun h =>
    match m h with
    | (inl e, out) => (inl e, out)
    | (inr a, out) =>
        let (r, out') := f a (h ++ out) in (r, out ++ out')
    end.

Definition emit {E} (e : event) : M E unit := fun _ => (inr tt, [e]).

Definition log {E} (m : msg) : M E unit := emit (Log m).

Notation "x <- m ;; k" := (bind m (fun x => k))
  (at level 61, m at next level, right associativity).
Notation "m ;;; k" := (bind m (fun _ => k))
  (at level 61, right associativity).

(** ** [purge] *)

(** [date.min] and [date.max] as ordinals (0001-01-01 and 9999-12-31). *)
Definition min_ordinal : Z := 1.
Definition max_ordinal : Z := 3652059.
Definition us_per_day : Z := 86400000000.

(** [datetime.combine(today, datetime.min.time(), tzinfo=tzutc())
     - timedelta(days=max_days)]: midnight, read as UTC, of the day
    [max_days] before [today], or an [OverflowError] when that day is no
    date. *)
Definition cutoff_of (today max_days : Z) : exn + Z :=
  let day := (today - max_days)%Z in
  if ((min_ordinal <=? day) && (day <=? max_ordinal))%Z
  then inr ((day - 1) * us_per_day)%Z
  else inl OverflowError.

(** Lines 40-44, the cutoff of a run: [date.today()] is read here, and only
    here. *)
Definition compute_cutoff (w : world) (max_days : Z) : M exn Z :=
  fun h =>
    let d := date_today w h in
    (cutoff_of d max_days, [Today d]).

(** [last_modified <= cutoff] *)
Definition eligible (cutoff : Z) (o : obj) : bool :=
  (LastModified o <=? cutoff)%Z.

(** Lines 59-66, the loop over [page['Contents']]; [page_queue] and [total]
    are its variables. *)
Fixpoint scan (cutoff : Z) (objs : list obj) (page_queue : list string)
  (total : nat) : M exn (list string * nat) :=
  match objs with
  | [] => ret (page_queue, total)
  | o :: rest =>
      if eligible cutoff o then
        log (Queued (Key o)) ;;;
        scan cutoff rest (page_queue ++ [Key o]) (total + 1)
      else scan cutoff rest page_queue total
  end.

(** [page['Contents']] *)
Definition contents (p : page) : M exn (list obj) :=
  match Contents p with
  | Some objs => ret objs
  | None => raise (KeyError "Contents")
  end.

(** [client.delete_objects(Bucket=bucket, Delete={...})] unless [dry_run]. *)
Definition delete (w : world) (dry_run : bool) (keys : list string)
  : M exn unit :=
  if negb dry_run then
    fun h =>
      match delete_objects w h keys with
      | None => (inr tt, [DeleteObjects keys None])
      | Some e => (inl e, [DeleteObjects keys (Some e)])
      end
  else ret tt.

(** [bool(page_queue)] *)
Definition nonempty {A} (l : list A) : bool :=
  match l with [] => false | _ => true end.

(** Lines 56-83, the body of the loop over the pages, for page number [i]. *)
Definition page_step (w : world) (cutoff : Z) (list_then_delete dry_run : bool)
  (i : nat) (p : page) (to_be_deleted : list string) (total : nat)
  : M exn (list string * nat) :=
  objs <- contents p ;;
  qt <- scan cutoff objs [] total ;;
  let (page_queue, total) := qt in
  log (Found (length page_queue) i) ;;;
  page_queue <-
    (if negb list_then_delete && nonempty page_queue then
       log (DeletingQueue i (length page_queue)) ;;;
       delete w dry_run page_queue ;;;
       ret []
     else ret page_queue) ;;
  ret (to_be_deleted ++ page_queue, total).

(** Line 54, [for i, page in enumerate(bucket_iterator, 1)]: asking the
    paginator for the next page is a call that can fail. *)
Fixpoint list_loop (w : world) (cutoff : Z) (list_then_delete dry_run : bool)
  (it : list fetch) (i : nat) (to_be_deleted : list string) (total : nat)
  : M exn (list string * nat) :=
  match it with
  | [] => ret (to_be_deleted, total)
  | r :: it' =>
      emit (ListObjects i r) ;;;
      match r with
      | Fail e => raise e
      | Yield p =>
          st <- page_step w cutoff list_then_delete dry_run i p
                  to_be_deleted total ;;
          let (to_be_deleted, total) := st in
          list_loop w cutoff list_then_delete dry_run it' (S i)
            to_be_deleted total
      end
  end.

(** [range(start, stop, step)] for a positive step; [fuel] bounds the
    number of elements. *)
Fixpoint range_from (fuel start stop step : nat) : list nat :=
  match fuel with
  | O => []
  | S fuel' =>
      if (start <? stop)%nat
      then start :: range_from fuel' (start + step) stop step
      else []
  end.

Definition range (start stop step : nat) : list nat :=
  range_from (stop - start) start stop step.

(** [l[i:j]] for [0 <= i <= j] *)
Definition slice {A} (l : list A) (i j : nat) : list A :=
  firstn (j - i) (skipn i l).

Definition chunk_size : nat := 1000.

(** [[to_be_deleted[i:i + 1000] for i in range(0, len(to_be_deleted), 1000)]] *)
Definition chunks_of (to_be_deleted : list string) : list (list string) :=
  map (fun i => slice to_be_deleted i (i + chunk_size))
      (range 0 (length to_be_deleted) chunk_size).

(** Lines 97-106, [for i, chunk in enumerate(chunks, 1)] *)
Fixpoint delete_chunks (w : world) (dry_run : bool)
  (chunks : list (list string)) (i n : nat) : M exn unit :=
  match chunks with
  | [] => ret tt
  | chunk :: rest =>
      log (DeletingChunk i n (length chunk)) ;;;
      delete w dry_run chunk ;;;
      delete_chunks w dry_run rest (S i) n
  end.

(** Lines 86-106, [if to_be_deleted: ...] *)
Definition final_delete (w : world) (dry_run : bool)
  (to_be_deleted : list string) : M exn unit :=
  if nonempty to_be_deleted then
    log (TotalQueued (length to_be_deleted)) ;;;
    let chunks := chunks_of to_be_deleted in
    log (ChunksFormed (length chunks) (length to_be_deleted)) ;;;
    delete_chunks w dry_run chunks 1 (length chunks)
  else ret tt.

(** [purge(bucket, max_days, access_key, secret_key, endpoint,
           list_then_delete, dry_run)]; [w] is what the client built from the
    bucket, the keys and the endpoint talks to. *)
Definition purge (w : world) (max_days : Z) (list_then_delete dry_run : bool)
  : M exn unit :=
  cutoff <- compute_cutoff w max_days ;;
  st <- list_loop w cutoff list_then_delete dry_run (paginate w) 1 [] 0 ;;
  let (to_be_deleted, total) := st in
  final_delete w dry_run to_be_deleted ;;;
  log (Finished total).

(** ** [do] *)

Record args := mkArgs {
  days : Z;
  dry_run : bool;
  target_method : string;
  prefix : option string;
  buckets : option (list string);
  delete_method : string
}.

(** A job handed to the thread pool, once it is done: what [job.result()]
    returns or raises, and what the job did. *)
Record future := mkFuture {
  job_bucket : string;
  job_result : exn + unit;
  job_trace : list event
}.

(** What [do] sees: the date when it starts, the answer of
    [client.list_buckets()], the world each bucket's own client talks to, and
    the order in which the pool completes the jobs. *)
Record fleet := mkFleet {
  fleet_today : Z;
  list_buckets : exn + list string;
  bucket_world : string -> world;
  as_completed : list future -> list future
}.

(** [not s] for an optional string, [not l] for an optional list *)
Definition no_string (s : option string) : bool :=
  match s with
  | None => true
  | Some s => (s =? "")%string
  end.

Definition no_list {A} (l : option (list A)) : bool :=
  match l with
  | None => true
  | Some l => negb (nonempty l)
  end.

(** [b.startswith(bucket_prefix)] *)
Definition startswith (b : string) (bucket_prefix : option string) : bool :=
  match bucket_prefix with
  | Some p => String.prefix p b
  | None => false
  end.

(** [b in bucket_targets] *)
Definition is_target (b : string) (bucket_targets : option (list string))
  : bool :=
  match bucket_targets with
  | Some l => existsb (String.eqb b) l
  | None => false
  end.

Definition lift {A} (m : M exn A) : M base_exn A :=
  fun h =>
    match m h with
    | (inl e, out) => (inl (Exc e), out)
    | (inr a, out) => (inr a, out)
    end.

(** [tpe.submit(purge, bucket, max_days, ...)]: the job runs [purge] with a
    client of its own, so its history starts empty. *)
Definition submit (f : fleet) (max_days : Z) (list_then_delete dry : bool)
  (bucket : string) : future :=
  let (r, tr) := purge (bucket_world f bucket) max_days list_then_delete dry []
  in mkFuture bucket r tr.

(** Lines 178-182, [for job in as_completed(jobs): try: job.result()
     except Exception as e: log.exception(e)] *)
Fixpoint collect (jobs : list future) : M base_exn unit :=
  match jobs with
  | [] => ret tt
  | job :: rest =>
      match job_result job with
      | inl e => log (Exception (job_bucket job) e)
      | inr _ => ret tt
      end ;;;
      collect rest
  end.

(** The buckets [do] works on: those of [client.list_buckets()] whose name
    starts with the prefix, or is one of the targets. *)
Definition targets (a : args) (names : list string) : list string :=
  if (target_method a =? "prefix")%string
  then filter (fun b => startswith b (prefix a)) names
  else filter (fun b => is_target b (buckets a)) names.

(** Lines 111-182, [do(args)]. The source returns nothing; the value here
    is its list [jobs], for the theorems to speak about. *)
Definition do (f : fleet) (a : args) : M base_exn (list future) :=
  let max_days := days a in
  let list_then_delete := (delete_method a =? "list_then_delete")%string in
  (if dry_run a then log DryRunMode else ret tt) ;;;
  (if (target_method a =? "prefix")%string then
     if no_string (prefix a) then raise (SystemExit "No prefix provided")
     else ret tt
   else
     if no_list (buckets a) then raise (SystemExit "No buckets provided")
     else ret tt) ;;;
  emit (Today (fleet_today f)) ;;;
  lift (fun _ => (cutoff_of (fleet_today f) max_days, [])) ;;;
  log (CutoffDate (fleet_today f - max_days)) ;;;
  emit ListBuckets ;;;
  names <- lift (fun _ => (list_buckets f, [])) ;;
  let buckets := targets a names in
  let jobs := map (submit f max_days list_then_delete (dry_run a)) buckets in
  collect (as_completed f jobs) ;;;
  ret jobs.

(** Nothing to look for: [do] exits before any bucket is touched. *)
Definition nothing_to_find (a : args) : bool :=
  if (target_method a =? "prefix")%string
  then no_string (prefix a)
  else no_list (buckets a).

(** ** Reading a trace *)

(** The key sequences of the [delete_objects] calls, in order. *)
Fixpoint delete_calls (tr : list event) : list (list string) :=
  match tr with
  | [] => []
  | DeleteObjects keys _ :: tr' => keys :: delete_calls tr'
  | _ :: tr' => delete_calls tr'
  end.

Definition is_call (e : event) : bool :=
  match e with
  | ListObjects _ _ | DeleteObjects _ _ => true
  | _ => false
  end.

(** The calls to the storage service, listing and deletion, in order. *)
Definition calls (tr : list event) : list event := filter is_call tr.

(** The total of the line [Finished deletion of {total} objects]. *)
Fixpoint reported (tr : list event) : option nat :=
  match tr with
  | [] => None
  | Log (Finished total) :: _ => Some total
  | _ :: tr' => reported tr'
  end.

(** The exception a call ended with, if it did. *)
Definition failure (e : event) : option exn :=
  match e with
  | ListObjects _ (Fail e) => Some e
  | DeleteObjects _ (Some e) => Some e
  | _ => None
  end.

(** ** Reading a listing *)

Definition page_objs (r : fetch) : list obj :=
  match r with
  | Yield (mkPage (Some objs)) => objs
  | _ => []
  end.

Definition listed (it : list fetch) : list obj := flat_map page_objs it.

Definition eligible_keys (cutoff : Z) (objs : list obj) : list string :=
  map Key (filter (eligible cutoff) objs).

(** Every page arrives and has its [Contents]. *)
Definition clean (it : list fetch) : Prop :=
  Forall (fun r => exists objs, r = Yield (mkPage (Some objs))) it.

(** No [delete_objects] call fails. *)
Definition reliable (w : world) : Prop :=
  forall h keys, delete_objects w h keys = None.

(** No [delete_objects] call can fail in this run: none is made, or the
    service answers every one. *)
Definition unfailing (w : world) (dry : bool) : Prop :=
  dry = true \/ reliable w.

(** ** The trace of a run, written down *)

(** What [purge] adds to the trace when every page arrives with its
    [Contents] and no delete call fails; the lemmas below show that the code
    produces exactly these events. *)

Definition queued_lines (keys : list string) : list event :=
  map (fun k => Log (Queued k)) keys.

(** What a page that arrives with its [Contents] adds to the trace when no
    delete call fails. *)
Definition page_trace (cutoff : Z) (list_then_delete dry : bool) (i : nat)
  (objs : list obj) : list event :=
  let q := eligible_keys cutoff objs in
  queued_lines q ++ [Log (Found (length q) i)] ++
  (if negb list_then_delete && nonempty q then
     Log (DeletingQueue i (length q)) ::
     (if dry then [] else [DeleteObjects q None])
   else []).

Fixpoint loop_trace (cutoff : Z) (list_then_delete dry : bool)
  (it : list fetch) (i : nat) : list event :=
  match it with
  | [] => []
  | r :: it' =>
      ListObjects i r ::
      page_trace cutoff list_then_delete dry i (page_objs r) ++
      loop_trace cutoff list_then_delete dry it' (S i)
  end.

Fixpoint chunk_trace (dry : bool) (chunks : list (list string)) (i n : nat)
  : list event :=
  match chunks with
  | [] => []
  | chunk :: rest =>
      Log (DeletingChunk i n (length chunk)) ::
      (if dry then [] else [DeleteObjects chunk None]) ++
      chunk_trace dry rest (S i) n
  end.

Definition final_trace (dry : bool) (to_be_deleted : list string)
  : list event :=
  if nonempty to_be_deleted then
    Log (TotalQueued (length to_be_deleted)) ::
    Log (ChunksFormed (length (chunks_of to_be_deleted))
           (length to_be_deleted)) ::
    chunk_trace dry (chunks_of to_be_deleted) 1
      (length (chunks_of to_be_deleted))
  else [].

(** The keys [purge] has in [to_be_deleted] when the listing is exhausted. *)
Definition leftover (cutoff : Z) (list_then_delete : bool) (it : list fetch)
  : list string :=
  if list_then_delete then eligible_keys cutoff (listed it) else [].

Definition purge_trace (today cutoff : Z) (list_then_delete dry : bool)
  (it : list fetch) : list event :=
  Today today ::
  loop_trace cutoff list_then_delete dry it 1 ++
  final_trace dry (leftover cutoff list_then_delete it) ++
  [Log (Finished (length (eligible_keys cutoff (listed it))))].

(** What a page adds to the trace when its delete call fails with [e]. *)
Definition failing_page_trace (cutoff : Z) (i : nat) (objs : list obj)
  (e : exn) : list event :=
  let q := eligible_keys cutoff objs in
  queued_lines q ++
  [Log (Found (length q) i); Log (DeletingQueue i (length q));
   DeleteObjects q (Some e)].

(** The last events of a run whose delete call for [chunk] fails, after the
    chunks [pre] went through. *)
Definition failing_final_trace (to_be_deleted : list string)
  (pre : list (list string)) (chunk : list string) (e : exn) : list event :=
  let n := length (chunks_of to_be_deleted) in
  Log (TotalQueued (length to_be_deleted)) ::
  Log (ChunksFormed n (length to_be_deleted)) ::
  chunk_trace false pre 1 n ++
  [Log (DeletingChunk (length pre + 1) n (length chunk));
   DeleteObjects chunk (Some e)].

(** The listing calls of a run that reaches the end of the listing. *)
Fixpoint list_calls (it : list fetch) (i : nat) : list event :=
  match it with
  | [] => []
  | r :: it' => ListObjects i r :: list_calls it' (S i)
  end.

(** The queue of each page, and the queues that are deleted page by page. *)
Definition page_queues (cutoff : Z) (it : list fetch) : list (list string) :=
  map (fun r => eligible_keys cutoff (page_objs r)) it.

Definition page_batches (cutoff : Z) (it : list fetch) : list (list string) :=
  filter nonempty (page_queues cutoff it).

(** Listing and deletion interleaved: each page's queue is deleted before the
    next page is asked for. *)
Fixpoint per_page_calls (cutoff : Z) (it : list fetch) (i : nat)
  : list event :=
  match it with
  | [] => []
  | r :: it' =>
      ListObjects i r ::
      (let q := eligible_keys cutoff (page_objs r) in
       if nonempty q then [DeleteObjects q None] else []) ++
      per_page_calls cutoff it' (S i)
  end.

(** The lines [log.exception(e)] writes for the jobs that failed. *)
Definition exception_lines (jobs : list future) : list event :=
  flat_map (fun job =>
              match job_result job with
              | inl e => [Log (Exception (job_bucket job) e)]
              | inr _ => []
              end) jobs.

(** What [do] logs and calls before the jobs are collected. *)
Definition do_preamble (f : fleet) (a : args) : list event :=
  (if dry_run a then [Log DryRunMode] else []) ++
  [Today (fleet_today f); Log (CutoffDate (fleet_today f - days a));
   ListBuckets].

Definition jobs_of (f : fleet) (a : args) (names : list string)
  : list future :=
  map (submit f (days a) (delete_method a =? "list_then_delete")%string
         (dry_run a))
      (targets a names).

(** ** Where a run can end *)

(** How the step for the fetch [r], numbered [i], can fail: with which
    exception and after which events. *)
Inductive page_failure (cutoff : Z) (ltd dry : bool) (i : nat)
  : fetch -> exn -> list event -> Prop :=
| ListingFailed e :
    page_failure cutoff ltd dry i (Fail e) e []
| NoContents :
    page_failure cutoff ltd dry i (Yield (mkPage None))
      (KeyError "Contents") []
| PageDeleteFailed objs e :
    ltd = false -> dry = false -> eligible_keys cutoff objs <> [] ->
    page_failure cutoff ltd dry i (Yield (mkPage (Some objs))) e
      (failing_page_trace cutoff i objs e).

Inductive loop_outcome (cutoff : Z) (ltd dry : bool) (it : list fetch)
  (i : nat) (tbd : list string) (total : nat)
  : (exn + list string * nat) * list event -> Prop :=
| LoopDone :
    clean it ->
    loop_outcome cutoff ltd dry it i tbd total
      (inr (tbd ++ leftover cutoff ltd it,
            total + length (eligible_keys cutoff (listed it))),
       loop_trace cutoff ltd dry it i)
| LoopFailed pre r post e tail :
    it = pre ++ r :: post -> clean pre ->
    page_failure cutoff ltd dry (length pre + i) r e tail ->
    loop_outcome cutoff ltd dry it i tbd total
      (inl e,
       loop_trace cutoff ltd dry pre i ++
       ListObjects (length pre + i) r :: tail).

Inductive chunks_outcome (dry : bool) (chunks : list (list string))
  (i n : nat) : (exn + unit) * list event -> Prop :=
| ChunksDone :
    chunks_outcome dry chunks i n (inr tt, chunk_trace dry chunks i n)
| ChunkFailed pre chunk post e :
    chunks = pre ++ chunk :: post -> dry = false ->
    chunks_outcome dry chunks i n
      (inl e,
       chunk_trace false pre i n ++
       [Log (DeletingChunk (length pre + i) n (length chunk));
        DeleteObjects chunk (Some e)]).

Inductive final_outcome (dry : bool) (tbd : list string)
  : (exn + unit) * list event -> Prop :=
| FinalDone : final_outcome dry tbd (inr tt, final_trace dry tbd)
| FinalFailed pre chunk post e :
    chunks_of tbd = pre ++ chunk :: post -> dry = false ->
    final_outcome dry tbd (inl e, failing_final_trace tbd pre chunk e).

(** The four ways a run of [purge] can go. *)
Inductive purge_outcome (today max_days : Z) (ltd dry : bool)
  (it : list fetch) : (exn + unit) * list event -> Prop :=
| Overflowed e :
    cutoff_of today max_days = inl e ->
    purge_outcome today max_days ltd dry it (inl e, [Today today])
| Completed cutoff :
    cutoff_of today max_days = inr cutoff -> clean it ->
    purge_outcome today max_days ltd dry it
      (inr tt, purge_trace today cutoff ltd dry it)
| ListingStopped cutoff pre r post e tail :
    cutoff_of today max_days = inr cutoff ->
    it = pre ++ r :: post -> clean pre ->
    page_failure cutoff ltd dry (length pre + 1) r e tail ->
    purge_outcome today max_days ltd dry it
      (inl e,
       Today today ::
       loop_trace cutoff ltd dry pre 1 ++
       ListObjects (length pre + 1) r :: tail)
| FinalStopped cutoff pre chunk post e :
    cutoff_of today max_days = inr cutoff -> clean it -> dry = false ->
    chunks_of (leftover cutoff ltd it) = pre ++ chunk :: post ->
    purge_outcome today max_days ltd dry it
      (inl e,
       Today today ::
       loop_trace cutoff ltd dry it 1 ++
       failing_final_trace (leftover cutoff ltd it) pre chunk e).

(** ** Properties of events and calls *)

(** Only the last line of [purge] reports the total. *)
Definition unfinished (e : event) : Prop :=
  forall total, e <> Log (Finished total).

(** The exception an event makes [purge] end with: a listing or delete call
    that fails, or a page that arrives without [Contents]. *)
Definition fatal (e : event) : option exn :=
  match e with
  | ListObjects _ (Fail e) => Some e
  | ListObjects _ (Yield p) =>
      match Contents p with
      | None => Some (KeyError "Contents")
      | Some _ => None
      end
  | DeleteObjects _ (Some e) => Some e
  | _ => None
  end.

Definition harmless (e : event) : Prop := fatal e = None.

(** Every page holds at most 1000 objects (the page size of the service). *)
Definition pages_bounded (it : list fetch) : Prop :=
  Forall (fun r => length (page_objs r) <= 1000) it.

(** A key sequence that may be deleted: not empty, made of keys of listed
    objects that pass the filter, and of at most 1000 keys when [bounded]. *)
Definition gated (cutoff : Z) (it : list fetch) (bounded : Prop)
  (call : list string) : Prop :=
  call <> [] /\
  (forall k, In k call ->
             exists o, In o (listed it) /\ Key o = k /\
                       (LastModified o <= cutoff)%Z) /\
  (bounded -> length call <= 1000).

(** ** Chunking, by recursion on the list *)

Arguments chunk_size : simpl never.

(** [ceil(a / b)] *)
Definition ceil_div (a b : nat) : nat := (a + b - 1) / b.

(** Cutting a list every [s] elements, by recursion on the list that is
    left; [chunks_of] computes the same from the start indices. *)
Fixpoint split_every {A} (fuel s : nat) (l : list A) : list (list A) :=
  match fuel with
  | O => []
  | S fuel' =>
      match l with
      | [] => []
      | _ => firstn s l :: split_every fuel' s (skipn s l)
      end
  end.

(** ** Listings used as examples *)

Module Examples.

Definition key_of (n : nat) : string :=
  String.append "obj-" (NilZero.string_of_uint (Nat.to_uint n)).

(** [n] objects numbered from [start], all modified at [last_modified]. *)
Definition objects (start n : nat) (last_modified : Z) : list obj :=
  map (fun i => mkObj (key_of i) last_modified) (seq start n).

Definition some_page (objs : list obj) : fetch := Yield (mkPage (Some objs)).

(** 2024-03-31 as an ordinal; 90 days before is 2024-01-01. *)
Definition march31 : Z := 738976.

(** 2024-01-01T00:00:00Z and one millisecond later. *)
Definition jan1 : Z := 63839664000000000.
Definition jan1_1ms : Z := jan1 + 1000.

Definition never_fails : list event -> list string -> option exn :=
  fun _ _ => None.

Definition bucket_of (it : list fetch) : world :=
  mkWorld (fun _ => march31) it never_fails.

(** Three pages holding 1000, 600 and 900 objects at the cutoff, and 300
    newer ones. *)
Definition listing2500 : list fetch :=
  [some_page (objects 0 1000 jan1);
   some_page (objects 1000 600 jan1 ++ objects 1600 300 jan1_1ms);
   some_page (objects 1900 900 jan1)].

(** Three pages with 2, 0 and 3 eligible objects. *)
Definition listing203 : list fetch :=
  [some_page (objects 0 2 jan1 ++ objects 2 1 jan1_1ms);
   some_page (objects 3 2 jan1_1ms);
   some_page (objects 5 3 0)].

(** One page with one object at the cutoff. *)
Definition listing1 : list fetch := [some_page (objects 0 1 jan1)].

(** What listing an empty bucket gives: one page without [Contents]. *)
Definition listing_empty : list fetch := [Yield (mkPage None)].

(** A listing whose second page does not arrive. *)
Definition listing_broken : list fetch :=
  [some_page (objects 0 2 jan1);
   Fail (ClientError "AccessDenied");
   some_page (objects 2 2 jan1)].

(** Three buckets behind the prefix [logs-]; listing the first one fails. *)
Definition fleet_worlds (b : string) : world :=
  if (b =? "logs-a")%string then bucket_of listing_broken
  else if (b =? "logs-b")%string then bucket_of listing203
  else bucket_of listing1.

Definition fleet3 : fleet :=
  mkFleet march31 (inr ["logs-a"; "other"; "logs-b"; "logs-c"]) fleet_worlds
    (@rev future).

Definition by_prefix : args :=
  mkArgs 90 false "prefix" (Some "logs-") None "list_then_delete".

(** Two buckets with the same listing, one object modified a millisecond
    after 2024-01-01T00:00:00Z; the job of the second bucket starts after
    midnight. *)
Definition listing_after : list fetch := [some_page (objects 0 1 jan1_1ms)].

Definition midnight_worlds (b : string) : world :=
  if (b =? "logs-b")%string
  then mkWorld (fun _ => (march31 + 1)%Z) listing_after never_fails
  else mkWorld (fun _ => march31) listing_after never_fails.

Definition fleet_midnight : fleet :=
  mkFleet march31 (inr ["logs-a"; "logs-b"]) midnight_worlds (fun jobs => jobs).

End Examples.

(** ** The logger of a job *)

(** Lines 27-28, [bucket.translate(str.maketrans({' ': '_', '.': '_'}))]:
    a space and a dot become an underscore, every other character stays.
    (A string is its UTF-8 bytes here; no byte of a character beyond ASCII is
    a space or a dot, so translating bytes is translating characters.) *)
Definition translate_char (c : Ascii.ascii) : Ascii.ascii :=
  if (Ascii.eqb c " " || Ascii.eqb c ".")%bool then "_"%char else c.

Fixpoint plog_name (bucket : string) : string :=
  match bucket with
  | EmptyString => EmptyString
  | String c rest => String (translate_char c) (plog_name rest)
  end.

(** The name of [log.getChild(f'{plog_name}_worker')], [log] being the
    logger ['s3-janitor']. *)
Definition plog (bucket : string) : string :=
  String.append "s3-janitor."
    (String.append (plog_name bucket) "_worker").

(** How often a character occurs in a string. *)
Fixpoint occurrences (c : Ascii.ascii) (s : string) : nat :=
  match s with
  | EmptyString => 0
  | String c' rest =>
      (if Ascii.eqb c c' then 1 else 0) + occurrences c rest
  end.

(** ** More ways to read a run *)

(** The day, as an ordinal, of an instant of the time line. *)
Definition day_of (t : Z) : Z := (t / us_per_day + 1)%Z.

(** The key sequences a run that deletes everything sends, call by call. *)
Definition batches (cutoff : Z) (list_then_delete : bool) (it : list fetch)
  : list (list string) :=
  if list_then_delete
  then chunks_of (eligible_keys cutoff (listed it))
  else page_batches cutoff it.

Definition is_delete (e : event) : bool :=
  match e with
  | DeleteObjects _ _ => true
  | _ => false
  end.

(** A trace without its [delete_objects] calls. *)
Definition erase_deletes (tr : list event) : list event :=
  filter (fun e => negb (is_delete e)) tr.

Definition is_list (e : event) : bool :=
  match e with
  | ListObjects _ _ => true
  | _ => false
  end.

(** The listing calls of a trace. *)
Definition listings (tr : list event) : list event := filter is_list tr.

(** The lines [Found {n} objects in chunk {i}], as pairs [(n, i)]. *)
Fixpoint found_lines (tr : list event) : list (nat * nat) :=
  match tr with
  | [] => []
  | Log (Found n i) :: tr' => (n, i) :: found_lines tr'
  | _ :: tr' => found_lines tr'
  end.

(** The lines [Deleting chunk {i}/{n} ({size} objects)]. *)
Fixpoint chunk_lines (tr : list event) : list (nat * nat * nat) :=
  match tr with
  | [] => []
  | Log (DeletingChunk i n size) :: tr' => (i, n, size) :: chunk_lines tr'
  | _ :: tr' => chunk_lines tr'
  end.

(** ** More examples *)

Module MoreExamples.

(** A service whose second [delete_objects] call fails. *)
Definition second_delete_fails : list event -> list string -> option exn :=
  fun h _ =>
    match delete_calls h with
    | [] => None
    | _ => Some (ClientError "SlowDown")
    end.

Definition flaky_bucket (it : list fetch) : world :=
  mkWorld (fun _ => Examples.march31) it second_delete_fails.

(** The objects of [Examples.listing203] in two pages instead of three. *)
Definition listing203_two_pages : list fetch :=
  [Examples.some_page
     (Examples.objects 0 2 Examples.jan1 ++
      Examples.objects 2 1 Examples.jan1_1ms ++
      Examples.objects 3 1 Examples.jan1_1ms);
   Examples.some_page
     (Examples.objects 4 1 Examples.jan1_1ms ++ Examples.objects 5 3 0)].



(** [client.list_buckets()] is refused. *)
Definition fleet_denied : fleet :=
  mkFleet Examples.march31 (inl (ClientError "AccessDenied"))
    Examples.fleet_worlds (fun jobs => jobs).

End MoreExamples.

(** * Proofs *)

(** ** Running the monad *)

Lemma emit_run {E} (e : event) h : @emit E e h = (inr tt, [e]).
Proof. reflexivity. Qed.

Lemma log_run {E} (m : msg) h : @log E m h = (inr tt, [Log m]).
Proof. reflexivity. Qed.

(** ** A run in which every page arrives and no delete call fails *)

Lemma scan_run cutoff objs : forall page_queue total h,
  scan cutoff objs page_queue total h =
  (inr (page_queue ++ eligible_keys cutoff objs,
        total + length (eligible_keys cutoff objs)),
   queued_lines (eligible_keys cutoff objs)).
Proof.
  unfold eligible_keys, queued_lines.
  induction objs as [| o rest IH]; intros q t h; simpl.
  - unfold ret. now rewrite app_nil_r, Nat.add_0_r.
  - destruct (eligible cutoff o); simpl.
    + unfold bind. rewrite log_run, IH. simpl.
      rewrite <- app_assoc. simpl. do 3 f_equal. lia.
    + apply IH.
Qed.

Lemma delete_run w dry keys h :
  unfailing w dry ->
  delete w dry keys h =
  (inr tt, if dry then [] else [DeleteObjects keys None]).
Proof.
  intros [-> | Hw]; unfold delete; [reflexivity |].
  destruct dry; simpl; [reflexivity |]. now rewrite Hw.
Qed.

Lemma page_step_run w cutoff ltd dry i objs tbd total h :
  unfailing w dry ->
  page_step w cutoff ltd dry i (mkPage (Some objs)) tbd total h =
  (inr (tbd ++ (if ltd then eligible_keys cutoff objs else []),
        total + length (eligible_keys cutoff objs)),
   page_trace cutoff ltd dry i objs).
Proof.
  intros Hw. unfold page_step, page_trace, contents, bind. simpl.
  rewrite scan_run. simpl.
  destruct ltd; simpl.
  - now rewrite ?app_nil_r.
  - destruct (eligible_keys cutoff objs) as [| k q']; simpl.
    + reflexivity.
    + rewrite delete_run by assumption.
      destruct dry; simpl; now rewrite ?app_nil_r.
Qed.

Lemma listed_cons r it : listed (r :: it) = page_objs r ++ listed it.
Proof. reflexivity. Qed.

Lemma eligible_keys_app cutoff l1 l2 :
  eligible_keys cutoff (l1 ++ l2) =
  eligible_keys cutoff l1 ++ eligible_keys cutoff l2.
Proof. unfold eligible_keys. now rewrite filter_app, map_app. Qed.

Lemma list_loop_run w cutoff ltd dry it :
  unfailing w dry -> clean it ->
  forall i tbd total h,
    list_loop w cutoff ltd dry it i tbd total h =
    (inr (tbd ++ (if ltd then eligible_keys cutoff (listed it) else []),
          total + length (eligible_keys cutoff (listed it))),
     loop_trace cutoff ltd dry it i).
Proof.
  intros Hw Hit. induction Hit as [| r it [objs ->] _ IH]; intros i tbd total h.
  - simpl. unfold ret. rewrite Nat.add_0_r. now destruct ltd; rewrite app_nil_r.
  - simpl list_loop. unfold bind at 1. rewrite emit_run.
    unfold bind at 1. rewrite page_step_run by assumption.
    rewrite IH. rewrite listed_cons, eligible_keys_app, length_app.
    simpl. do 3 f_equal.
    + destruct ltd; now rewrite <- ?app_assoc, ?app_nil_r.
    + lia.
Qed.

Lemma delete_chunks_run w dry chunks :
  unfailing w dry ->
  forall i n h,
    delete_chunks w dry chunks i n h = (inr tt, chunk_trace dry chunks i n).
Proof.
  intros Hw. induction chunks as [| c rest IH]; intros i n h; simpl.
  - reflexivity.
  - unfold bind at 1. rewrite log_run.
    unfold bind at 1. rewrite delete_run by assumption.
    rewrite IH. reflexivity.
Qed.

Lemma final_delete_run w dry tbd h :
  unfailing w dry -> final_delete w dry tbd h = (inr tt, final_trace dry tbd).
Proof.
  intros Hw. unfold final_delete, final_trace.
  destruct (nonempty tbd); [| reflexivity].
  unfold bind at 1. rewrite log_run.
  unfold bind at 1. rewrite log_run.
  rewrite delete_chunks_run by assumption. reflexivity.
Qed.

Lemma purge_run w max_days ltd dry h cutoff :
  cutoff_of (date_today w h) max_days = inr cutoff ->
  unfailing w dry -> clean (paginate w) ->
  purge w max_days ltd dry h =
  (inr tt, purge_trace (date_today w h) cutoff ltd dry (paginate w)).
Proof.
  intros Hc Hw Hit. unfold purge, purge_trace, leftover.
  unfold bind at 1. unfold compute_cutoff. rewrite Hc.
  unfold bind at 1. rewrite list_loop_run by assumption.
  unfold bind at 1. rewrite final_delete_run by assumption.
  rewrite log_run. simpl. reflexivity.
Qed.

Lemma list_loop_through w cutoff ltd dry pre rest :
  unfailing w dry -> clean pre ->
  forall i tbd total h,
    list_loop w cutoff ltd dry (pre ++ rest) i tbd total h =
    let (r, out) :=
      list_loop w cutoff ltd dry rest (length pre + i)
        (tbd ++ leftover cutoff ltd pre)
        (total + length (eligible_keys cutoff (listed pre)))
        (h ++ loop_trace cutoff ltd dry pre i) in
    (r, loop_trace cutoff ltd dry pre i ++ out).
Proof.
  intros Hw Hpre.
  induction Hpre as [| r pre [objs ->] _ IH]; intros i tbd total h.
  - assert (Hnil : leftover cutoff ltd [] = [])
      by (unfold leftover; now destruct ltd).
    cbn [app length loop_trace Nat.add]. rewrite Hnil, !app_nil_r.
    change (length (eligible_keys cutoff (listed []))) with 0.
    rewrite Nat.add_0_r.
    now destruct (list_loop w cutoff ltd dry rest i tbd total h).
  - cbn [app list_loop]. unfold bind at 1. rewrite emit_run.
    unfold bind at 1. rewrite page_step_run by assumption.
    rewrite IH.
    replace ((tbd ++ (if ltd then eligible_keys cutoff objs else [])) ++
             leftover cutoff ltd pre)
      with (tbd ++ leftover cutoff ltd (Yield (mkPage (Some objs)) :: pre)).
    2:{ unfold leftover. rewrite <- app_assoc. destruct ltd; [| reflexivity].
        now rewrite listed_cons, eligible_keys_app. }
    replace (total + length (eligible_keys cutoff objs) +
             length (eligible_keys cutoff (listed pre)))
      with (total + length (eligible_keys cutoff
                              (listed (Yield (mkPage (Some objs)) :: pre)))).
    2:{ rewrite listed_cons, eligible_keys_app, length_app. simpl. lia. }
    cbn [length loop_trace page_objs]. rewrite Nat.add_succ_r.
    replace (h ++ ListObjects i (Yield (mkPage (Some objs))) ::
               page_trace cutoff ltd dry i objs ++
               loop_trace cutoff ltd dry pre (S i))
      with (((h ++ [ListObjects i (Yield (mkPage (Some objs)))]) ++
             page_trace cutoff ltd dry i objs) ++
            loop_trace cutoff ltd dry pre (S i))
      by (rewrite <- !app_assoc; reflexivity).
    destruct (list_loop w cutoff ltd dry rest _ _ _ _) as [res out].
    simpl. now rewrite <- app_assoc.
Qed.

(** ** Chunking *)

Lemma chunk_size_pos : 0 < chunk_size.
Proof. unfold chunk_size. lia. Qed.

Section Chunks.
Context {A : Type}.
Variable s : nat.
Hypothesis s_pos : 0 < s.

Lemma slices_split (l : list A) : forall fuel start,
  map (fun i => slice l i (i + s)) (range_from fuel start (length l) s) =
  split_every fuel s (skipn start l).
Proof.
  induction fuel as [| fuel IH]; intros start; simpl; [reflexivity |].
  destruct (Nat.ltb_spec start (length l)) as [Hlt | Hge].
  - assert (Hlen : length (skipn start l) = length l - start)
      by apply length_skipn.
    destruct (skipn start l) as [| x rest] eqn:Hs; simpl in Hlen; [lia |].
    simpl map. rewrite IH. unfold slice.
    replace (start + s - start) with s by lia.
    rewrite (Nat.add_comm start s), <- (skipn_skipn s start l), Hs.
    reflexivity.
  - now rewrite skipn_all2 by lia.
Qed.

Lemma split_every_concat : forall fuel (l : list A),
  length l <= fuel -> concat (split_every fuel s l) = l.
Proof.
  induction fuel as [| fuel IH]; intros l Hl.
  - destruct l; simpl in *; [reflexivity | lia].
  - destruct l as [| x l']; [reflexivity |].
    cbn [split_every concat]. rewrite IH.
    + apply firstn_skipn.
    + rewrite length_skipn. cbn [length] in *. lia.
Qed.

Lemma split_every_sizes : forall fuel (l : list A),
  Forall (fun c => 0 < length c <= s) (split_every fuel s l).
Proof.
  induction fuel as [| fuel IH]; intros l; simpl; [constructor |].
  destruct l as [| x l']; constructor; [| apply IH].
  rewrite length_firstn. simpl length. lia.
Qed.

Lemma ceil_div_step n : 0 < n -> S (ceil_div (n - s) s) = ceil_div n s.
Proof.
  intros Hn. unfold ceil_div.
  destruct (le_lt_dec s n) as [Hle | Hlt].
  - replace (n + s - 1) with (n - s + s - 1 + 1 * s) by lia.
    rewrite Nat.div_add by lia. lia.
  - replace (n - s + s - 1) with (s - 1) by lia.
    replace (n + s - 1) with (n - 1 + 1 * s) by lia.
    rewrite Nat.div_add by lia.
    rewrite !Nat.div_small by lia. reflexivity.
Qed.

Lemma split_every_length : forall fuel (l : list A),
  length l <= fuel -> length (split_every fuel s l) = ceil_div (length l) s.
Proof.
  induction fuel as [| fuel IH]; intros l Hl.
  - destruct l; simpl in *; [| lia].
    unfold ceil_div. simpl. now rewrite Nat.div_small by lia.
  - destruct l as [| x l'].
    + unfold ceil_div. simpl. now rewrite Nat.div_small by lia.
    + cbn [split_every length]. rewrite IH.
      * rewrite length_skipn. apply (ceil_div_step (length (x :: l'))).
        cbn [length]. lia.
      * rewrite length_skipn. cbn [length] in *. lia.
Qed.
End Chunks.

Lemma chunks_of_split l : chunks_of l = split_every (length l) chunk_size l.
Proof.
  unfold chunks_of, range. rewrite Nat.sub_0_r.
  apply (slices_split chunk_size chunk_size_pos l (length l) 0).
Qed.

Lemma chunks_of_concat l : concat (chunks_of l) = l.
Proof.
  rewrite chunks_of_split.
  apply split_every_concat; [apply chunk_size_pos | lia].
Qed.

Lemma chunks_of_sizes l :
  Forall (fun c => 0 < length c <= chunk_size) (chunks_of l).
Proof.
  rewrite chunks_of_split. apply split_every_sizes, chunk_size_pos.
Qed.

Lemma chunks_of_length l :
  length (chunks_of l) = ceil_div (length l) chunk_size.
Proof.
  rewrite chunks_of_split.
  apply split_every_length; [apply chunk_size_pos | lia].
Qed.

(** The sizes of the chunks depend on the number of keys only. *)
Lemma chunks_of_lengths l :
  map (@length string) (chunks_of l) =
  map (fun i => Nat.min chunk_size (length l - i))
      (range 0 (length l) chunk_size).
Proof.
  unfold chunks_of. rewrite map_map. apply map_ext. intros i.
  unfold slice. rewrite length_firstn, length_skipn. f_equal. lia.
Qed.

Lemma chunks_of_nil : chunks_of [] = [].
Proof. reflexivity. Qed.

(** ** Reading the trace of a run *)

Lemma delete_calls_app tr1 tr2 :
  delete_calls (tr1 ++ tr2) = delete_calls tr1 ++ delete_calls tr2.
Proof.
  induction tr1 as [| e tr1 IH]; [reflexivity |].
  destruct e; simpl; now rewrite ?IH.
Qed.

Lemma calls_app tr1 tr2 : calls (tr1 ++ tr2) = calls tr1 ++ calls tr2.
Proof. apply filter_app. Qed.

Lemma delete_calls_queued keys : delete_calls (queued_lines keys) = [].
Proof. induction keys; simpl; auto. Qed.

Lemma calls_queued keys : calls (queued_lines keys) = [].
Proof. induction keys; simpl; auto. Qed.

Lemma concat_page_queues cutoff it :
  concat (page_queues cutoff it) = eligible_keys cutoff (listed it).
Proof.
  induction it as [| r it IH]; [reflexivity |].
  unfold page_queues in *. cbn [map concat].
  now rewrite listed_cons, eligible_keys_app, IH.
Qed.

Lemma concat_nonempty {A} (ls : list (list A)) :
  concat (filter nonempty ls) = concat ls.
Proof.
  induction ls as [| l ls IH]; [reflexivity |].
  destruct l; simpl; now rewrite IH.
Qed.

Lemma concat_page_batches cutoff it :
  concat (page_batches cutoff it) = eligible_keys cutoff (listed it).
Proof.
  unfold page_batches. now rewrite concat_nonempty, concat_page_queues.
Qed.

Lemma sum_page_queues cutoff it :
  list_sum (map (@length string) (page_queues cutoff it)) =
  length (eligible_keys cutoff (listed it)).
Proof.
  induction it as [| r it IH]; [reflexivity |].
  unfold page_queues, list_sum in *. cbn [map fold_right].
  now rewrite listed_cons, eligible_keys_app, length_app, IH.
Qed.

Lemma loop_trace_global cutoff dry it : forall i,
  delete_calls (loop_trace cutoff true dry it i) = [] /\
  calls (loop_trace cutoff true dry it i) = list_calls it i.
Proof.
  induction it as [| r it IH]; intros i; [now simpl |].
  destruct (IH (S i)) as (IHd & IHc).
  simpl. unfold page_trace. simpl.
  rewrite !delete_calls_app, !calls_app, delete_calls_queued, calls_queued.
  simpl. now rewrite IHd, IHc.
Qed.

Lemma loop_trace_per_page cutoff it : forall i,
  delete_calls (loop_trace cutoff false false it i) =
  page_batches cutoff it /\
  calls (loop_trace cutoff false false it i) = per_page_calls cutoff it i.
Proof.
  induction it as [| r it IH]; intros i; [now simpl |].
  destruct (IH (S i)) as (IHd & IHc).
  simpl. unfold page_trace, page_batches in *. simpl.
  rewrite !delete_calls_app, !calls_app, delete_calls_queued, calls_queued.
  destruct (eligible_keys cutoff (page_objs r)) as [| k q]; simpl;
    now rewrite IHd, IHc.
Qed.

Lemma loop_trace_dry cutoff ltd it : forall i,
  delete_calls (loop_trace cutoff ltd true it i) = [].
Proof.
  induction it as [| r it IH]; intros i; [reflexivity |].
  simpl. unfold page_trace.
  rewrite !delete_calls_app, delete_calls_queued, IH.
  now destruct (negb ltd && nonempty _).
Qed.

Lemma loop_trace_delete_calls cutoff ltd dry it i :
  delete_calls (loop_trace cutoff ltd dry it i) =
  if ltd || dry then [] else page_batches cutoff it.
Proof.
  destruct ltd; [apply loop_trace_global |].
  destruct dry; [apply loop_trace_dry | apply loop_trace_per_page].
Qed.

Lemma chunk_trace_calls chunks : forall i n,
  delete_calls (chunk_trace false chunks i n) = chunks /\
  calls (chunk_trace false chunks i n) =
  map (fun keys => DeleteObjects keys None) chunks.
Proof.
  induction chunks as [| c rest IH]; intros i n; [now simpl |].
  destruct (IH (S i) n) as (IHd & IHc).
  simpl. now rewrite IHd, IHc.
Qed.

Lemma chunk_trace_dry chunks : forall i n,
  delete_calls (chunk_trace true chunks i n) = [].
Proof. induction chunks as [| c rest IH]; intros i n; simpl; auto. Qed.

Lemma final_trace_calls tbd :
  delete_calls (final_trace false tbd) = chunks_of tbd /\
  calls (final_trace false tbd) =
  map (fun keys => DeleteObjects keys None) (chunks_of tbd).
Proof.
  unfold final_trace. destruct tbd as [| k tbd']; [now simpl |].
  cbn [nonempty].
  destruct (chunk_trace_calls (chunks_of (k :: tbd')) 1
              (length (chunks_of (k :: tbd')))) as (Hd & Hc).
  unfold calls in *. cbn [delete_calls filter is_call].
  now rewrite Hd, Hc.
Qed.

Lemma final_trace_dry tbd : delete_calls (final_trace true tbd) = [].
Proof.
  unfold final_trace. destruct (nonempty tbd); [| reflexivity].
  simpl. apply chunk_trace_dry.
Qed.

Lemma reported_unfinished tr1 tr2 :
  Forall unfinished tr1 -> reported (tr1 ++ tr2) = reported tr2.
Proof.
  induction 1 as [| e tr1 He _ IH]; [reflexivity |].
  destruct e as [| | | | []]; simpl; auto.
  now destruct (He total).
Qed.

Lemma reported_none tr : Forall unfinished tr -> reported tr = None.
Proof.
  intros H. rewrite <- (app_nil_r tr). now rewrite reported_unfinished.
Qed.

(** ** Every run of [purge], classified by where it ends *)

Lemma page_step_cases w cutoff ltd dry i p tbd total h :
  (exists objs,
      p = mkPage (Some objs) /\
      page_step w cutoff ltd dry i p tbd total h =
      (inr (tbd ++ (if ltd then eligible_keys cutoff objs else []),
            total + length (eligible_keys cutoff objs)),
       page_trace cutoff ltd dry i objs)) \/
  (exists e tail,
      page_failure cutoff ltd dry i (Yield p) e tail /\
      page_step w cutoff ltd dry i p tbd total h = (inl e, tail)).
Proof.
  destruct p as [[objs |]].
  2:{ right. exists (KeyError "Contents"), []. split; [constructor |].
      reflexivity. }
  destruct dry.
  { left. exists objs. split; [reflexivity |].
    apply page_step_run. now left. }
  destruct ltd.
  { left. exists objs. split; [reflexivity |].
    unfold page_step, page_trace, contents, bind. simpl.
    rewrite scan_run. simpl. now rewrite ?app_nil_r. }
  unfold page_step, page_trace, failing_page_trace, contents, bind. simpl.
  rewrite scan_run. simpl.
  destruct (eligible_keys cutoff objs) as [| k q] eqn:Hq; simpl.
  { left. exists objs. split; [reflexivity |]. now rewrite Hq. }
  unfold delete. simpl.
  destruct (delete_objects w _ (k :: q)) as [e |].
  - right. eexists e, _. split.
    + apply (PageDeleteFailed cutoff false false i objs e); auto.
      rewrite Hq. discriminate.
    + unfold failing_page_trace. rewrite Hq. simpl.
      now rewrite ?app_nil_r.
  - left. exists objs. split; [reflexivity |]. rewrite Hq. simpl.
    now rewrite ?app_nil_r.
Qed.

Lemma clean_cons objs it :
  clean it -> clean (Yield (mkPage (Some objs)) :: it).
Proof. intros H. constructor; eauto. Qed.

Lemma list_loop_cases w cutoff ltd dry it : forall i tbd total h,
  loop_outcome cutoff ltd dry it i tbd total
    (list_loop w cutoff ltd dry it i tbd total h).
Proof.
  induction it as [| r it IH]; intros i tbd total h.
  - simpl. unfold ret.
    replace tbd with (tbd ++ leftover cutoff ltd []) at 2
      by (unfold leftover; destruct ltd; apply app_nil_r).
    replace total with (total + length (eligible_keys cutoff (listed [])))
      at 2 by (simpl; lia).
    apply (LoopDone cutoff ltd dry [] i tbd total). constructor.
  - simpl list_loop. unfold bind at 1. rewrite emit_run.
    destruct r as [p | e].
    2:{ simpl.
        apply (LoopFailed cutoff ltd dry _ i tbd total [] (Fail e) it e []);
          [reflexivity | constructor | constructor]. }
    unfold bind at 1.
    destruct (page_step_cases w cutoff ltd dry i p tbd total
                (h ++ [ListObjects i (Yield p)]))
      as [(objs & -> & ->) | (e & tail & Hf & ->)].
    2:{ simpl.
        apply (LoopFailed cutoff ltd dry _ i tbd total [] (Yield p) it e tail);
          [reflexivity | constructor | exact Hf]. }
    cbv beta iota.
    specialize (IH (S i)
      (tbd ++ (if ltd then eligible_keys cutoff objs else []))
      (total + length (eligible_keys cutoff objs))
      ((h ++ [ListObjects i (Yield (mkPage (Some objs)))]) ++
       page_trace cutoff ltd dry i objs)).
    inversion IH as [Hc Hres | pre r post e tail Hit Hc Hf Hres].
    + assert (Heq : (tbd ++ (if ltd then eligible_keys cutoff objs else []))
                    ++ leftover cutoff ltd it =
                    tbd ++ leftover cutoff ltd
                             (Yield (mkPage (Some objs)) :: it)).
      { unfold leftover. rewrite <- app_assoc. destruct ltd; [| reflexivity].
        now rewrite listed_cons, eligible_keys_app. }
      assert (Hn : total + length (eligible_keys cutoff objs) +
                   length (eligible_keys cutoff (listed it)) =
                   total + length (eligible_keys cutoff
                             (listed (Yield (mkPage (Some objs)) :: it)))).
      { rewrite listed_cons, eligible_keys_app, length_app. simpl. lia. }
      rewrite Heq, Hn.
      apply (LoopDone cutoff ltd dry (Yield (mkPage (Some objs)) :: it)
               i tbd total).
      now apply clean_cons.
    + subst it.
      rewrite Nat.add_succ_r in *.
      rewrite (app_assoc (page_trace cutoff ltd dry i objs)).
      apply (LoopFailed cutoff ltd dry
               (Yield (mkPage (Some objs)) :: pre ++ r :: post) i tbd total
               (Yield (mkPage (Some objs)) :: pre) r post e tail);
        [reflexivity | now apply clean_cons | exact Hf].
Qed.

Lemma delete_chunks_cases w dry chunks : forall i n h,
  chunks_outcome dry chunks i n (delete_chunks w dry chunks i n h).
Proof.
  induction chunks as [| c rest IH]; intros i n h.
  - apply ChunksDone.
  - destruct dry.
    { rewrite delete_chunks_run by now left. apply ChunksDone. }
    simpl delete_chunks. unfold bind at 1. rewrite log_run.
    unfold bind at 1. unfold delete at 1. cbn [negb]. cbv beta iota.
    destruct (delete_objects w _ c) as [e |].
    + apply (ChunkFailed false (c :: rest) i n [] c rest e); reflexivity.
    + specialize (IH (S i) n
        ((h ++ [Log (DeletingChunk i n (length c))]) ++
         [DeleteObjects c None])).
      inversion IH as [Hres | pre chunk post e Hch _ Hres].
      * apply ChunksDone.
      * subst rest. rewrite Nat.add_succ_r.
        apply (ChunkFailed false (c :: pre ++ chunk :: post) i n
                 (c :: pre) chunk post e); reflexivity.
Qed.

Lemma final_delete_cases w dry tbd h :
  final_outcome dry tbd (final_delete w dry tbd h).
Proof.
  unfold final_delete.
  destruct (nonempty tbd) eqn:Hne.
  2:{ replace (ret tt h) with (@inr exn unit tt, final_trace dry tbd);
        [apply FinalDone |].
      unfold final_trace. now rewrite Hne. }
  unfold bind at 1. rewrite log_run.
  unfold bind at 1. rewrite log_run.
  match goal with
  | |- context [delete_chunks w dry ?cs ?i ?n ?h'] =>
      pose proof (delete_chunks_cases w dry cs i n h') as Hc
  end.
  inversion Hc as [Hres | pre chunk post e Hch Hdry Hres].
  - assert (Heq : final_trace dry tbd =
                   [Log (TotalQueued (length tbd))] ++
                   [Log (ChunksFormed (length (chunks_of tbd))
                           (length tbd))] ++
                   chunk_trace dry (chunks_of tbd) 1
                     (length (chunks_of tbd)))
      by (unfold final_trace; now rewrite Hne).
    rewrite <- Heq. apply FinalDone.
  - apply (FinalFailed dry tbd pre chunk post e); assumption.
Qed.

Lemma purge_cases w max_days ltd dry h :
  purge_outcome (date_today w h) max_days ltd dry (paginate w)
    (purge w max_days ltd dry h).
Proof.
  unfold purge. unfold bind at 1. unfold compute_cutoff.
  destruct (cutoff_of (date_today w h) max_days) as [e | cutoff] eqn:Hc.
  { now apply Overflowed. }
  unfold bind at 1.
  match goal with
  | |- context [list_loop w cutoff ltd dry ?it ?i ?t ?n ?h'] =>
      pose proof (list_loop_cases w cutoff ltd dry it i t n h') as Hl
  end.
  inversion Hl as [Hit Hres | pre r post e tail Hit Hpre Hf Hres].
  2:{ apply (ListingStopped _ _ _ _ _ cutoff pre r post e tail);
        assumption. }
  cbv beta iota. unfold bind at 1. simpl app at 1.
  match goal with
  | |- context [final_delete w dry ?t ?h'] =>
      pose proof (final_delete_cases w dry t h') as Hfin
  end.
  simpl app at 1 in Hfin.
  inversion Hfin as [Hres' | pre chunk post e Hch Hdry Hres'].
  - rewrite log_run. simpl.
    apply (Completed _ _ _ _ _ cutoff); assumption.
  - apply (FinalStopped _ _ _ _ _ cutoff pre chunk post e); assumption.
Qed.

(** ** Runs that complete, runs that fail *)

Lemma queued_unfinished keys : Forall unfinished (queued_lines keys).
Proof.
  induction keys; constructor; [intros t; discriminate | assumption].
Qed.

Lemma page_trace_unfinished cutoff ltd dry i objs :
  Forall unfinished (page_trace cutoff ltd dry i objs).
Proof.
  unfold page_trace. rewrite !Forall_app. repeat split.
  - apply queued_unfinished.
  - repeat constructor. intros t. discriminate.
  - destruct (negb ltd && nonempty _); [| constructor].
    constructor; [intros t; discriminate |].
    destruct dry; repeat constructor. intros t. discriminate.
Qed.

Lemma loop_trace_unfinished cutoff ltd dry it : forall i,
  Forall unfinished (loop_trace cutoff ltd dry it i).
Proof.
  induction it as [| r it IH]; intros i; [constructor |].
  simpl. constructor; [intros t; discriminate |].
  apply Forall_app. split; [apply page_trace_unfinished | apply IH].
Qed.

Lemma chunk_trace_unfinished dry chunks : forall i n,
  Forall unfinished (chunk_trace dry chunks i n).
Proof.
  induction chunks as [| c rest IH]; intros i n; [constructor |].
  simpl. constructor; [intros t; discriminate |].
  apply Forall_app. split; [| apply IH].
  destruct dry; repeat constructor. intros t. discriminate.
Qed.

Lemma final_trace_unfinished dry tbd : Forall unfinished (final_trace dry tbd).
Proof.
  unfold final_trace. destruct (nonempty tbd); [| constructor].
  repeat (constructor; [intros t; discriminate |]).
  apply chunk_trace_unfinished.
Qed.

Lemma purge_trace_reported today cutoff ltd dry it :
  reported (purge_trace today cutoff ltd dry it) =
  Some (length (eligible_keys cutoff (listed it))).
Proof.
  unfold purge_trace. cbn [reported].
  rewrite reported_unfinished by apply loop_trace_unfinished.
  now rewrite reported_unfinished by apply final_trace_unfinished.
Qed.

Lemma purge_trace_global today cutoff it :
  let keys := eligible_keys cutoff (listed it) in
  delete_calls (purge_trace today cutoff true false it) = chunks_of keys /\
  calls (purge_trace today cutoff true false it) =
  list_calls it 1 ++ map (fun call => DeleteObjects call None) (chunks_of keys).
Proof.
  intros keys. unfold purge_trace, leftover. fold keys.
  destruct (loop_trace_global cutoff false it 1) as (Hld & Hlc).
  destruct (final_trace_calls keys) as (Hfd & Hfc).
  split.
  - cbn [delete_calls]. rewrite !delete_calls_app, Hld, Hfd. simpl.
    apply app_nil_r.
  - unfold calls. cbn [filter is_call]. rewrite !filter_app.
    fold (calls (loop_trace cutoff true false it 1)).
    fold (calls (final_trace false keys)).
    rewrite Hlc, Hfc. simpl. now rewrite app_nil_r.
Qed.

Lemma purge_trace_per_page today cutoff it :
  delete_calls (purge_trace today cutoff false false it) =
  page_batches cutoff it /\
  calls (purge_trace today cutoff false false it) = per_page_calls cutoff it 1.
Proof.
  unfold purge_trace, leftover, final_trace. cbn [nonempty app].
  destruct (loop_trace_per_page cutoff it 1) as (Hld & Hlc).
  split.
  - cbn [delete_calls]. rewrite delete_calls_app, Hld. simpl.
    apply app_nil_r.
  - unfold calls. cbn [filter is_call]. rewrite filter_app.
    fold (calls (loop_trace cutoff false false it 1)).
    rewrite Hlc. simpl. apply app_nil_r.
Qed.

Lemma purge_trace_dry today cutoff ltd it :
  delete_calls (purge_trace today cutoff ltd true it) = [].
Proof.
  unfold purge_trace. cbn [delete_calls].
  now rewrite !delete_calls_app, loop_trace_dry, final_trace_dry.
Qed.

Lemma purge_completed_inv w max_days ltd dry h :
  fst (purge w max_days ltd dry h) = inr tt ->
  exists cutoff,
    cutoff_of (date_today w h) max_days = inr cutoff /\
    clean (paginate w) /\
    snd (purge w max_days ltd dry h) =
    purge_trace (date_today w h) cutoff ltd dry (paginate w).
Proof.
  intros Hr. pose proof (purge_cases w max_days ltd dry h) as Hc.
  destruct (purge w max_days ltd dry h) as [r tr]. simpl in Hr. subst r.
  inversion Hc; subst. eauto.
Qed.

Lemma page_failure_unfinished cutoff ltd dry i r e tail :
  page_failure cutoff ltd dry i r e tail -> Forall unfinished tail.
Proof.
  destruct 1; try constructor.
  unfold failing_page_trace. apply Forall_app. split.
  - apply queued_unfinished.
  - repeat constructor; intros t; discriminate.
Qed.

Lemma purge_failed_unreported w max_days ltd dry h e :
  fst (purge w max_days ltd dry h) = inl e ->
  reported (snd (purge w max_days ltd dry h)) = None.
Proof.
  intros Hr. pose proof (purge_cases w max_days ltd dry h) as Hc.
  destruct (purge w max_days ltd dry h) as [r tr]. simpl in *. subst r.
  apply reported_none.
  inversion Hc; subst.
  - repeat constructor. intros t. discriminate.
  - constructor; [intros t; discriminate |].
    apply Forall_app. split; [apply loop_trace_unfinished |].
    constructor; [intros t; discriminate |].
    eapply page_failure_unfinished; eassumption.
  - constructor; [intros t; discriminate |].
    apply Forall_app. split; [apply loop_trace_unfinished |].
    unfold failing_final_trace.
    repeat (constructor; [intros t; discriminate |]).
    apply Forall_app. split; [apply chunk_trace_unfinished |].
    repeat constructor; intros t; discriminate.
Qed.

Lemma purge_reported_inv w max_days ltd dry h n :
  reported (snd (purge w max_days ltd dry h)) = Some n ->
  fst (purge w max_days ltd dry h) = inr tt.
Proof.
  intros Hn. destruct (fst (purge w max_days ltd dry h)) as [e | []] eqn:Hr;
    [| reflexivity].
  apply purge_failed_unreported in Hr. congruence.
Qed.

Lemma page_failure_dry cutoff ltd i r e tail :
  page_failure cutoff ltd true i r e tail -> tail = [].
Proof. inversion 1; subst; [reflexivity | reflexivity | discriminate]. Qed.

Lemma list_loop_per_page_leftover w cutoff dry it i tbd total h
  tbd' total' out :
  list_loop w cutoff false dry it i tbd total h = (inr (tbd', total'), out) ->
  tbd' = tbd.
Proof.
  intros Hrun.
  pose proof (list_loop_cases w cutoff false dry it i tbd total h) as Hc.
  rewrite Hrun in Hc. inversion Hc; subst.
  unfold leftover. apply app_nil_r.
Qed.

(** ** A run stops at the first failure *)

Lemma failure_fatal ev e : failure ev = Some e -> fatal ev = Some e.
Proof.
  destruct ev as [| i [p | e'] | keys [e' |] | |]; simpl; try discriminate;
    auto.
Qed.

Lemma queued_harmless keys : Forall harmless (queued_lines keys).
Proof. induction keys; constructor; [reflexivity | assumption]. Qed.

Lemma page_trace_harmless cutoff ltd dry i objs :
  Forall harmless (page_trace cutoff ltd dry i objs).
Proof.
  unfold page_trace. rewrite !Forall_app. repeat split.
  - apply queued_harmless.
  - repeat constructor.
  - destruct (negb ltd && nonempty _); [| constructor].
    destruct dry; repeat constructor.
Qed.

Lemma loop_trace_harmless cutoff ltd dry it :
  clean it -> forall i, Forall harmless (loop_trace cutoff ltd dry it i).
Proof.
  induction 1 as [| r it [objs ->] _ IH]; intros i; [constructor |].
  simpl. constructor; [reflexivity |].
  apply Forall_app. split; [apply page_trace_harmless | apply IH].
Qed.

Lemma chunk_trace_harmless dry chunks : forall i n,
  Forall harmless (chunk_trace dry chunks i n).
Proof.
  induction chunks as [| c rest IH]; intros i n; [constructor |].
  simpl. constructor; [reflexivity |].
  apply Forall_app. split; [| apply IH].
  destruct dry; repeat constructor.
Qed.

Lemma final_trace_harmless dry tbd : Forall harmless (final_trace dry tbd).
Proof.
  unfold final_trace. destruct (nonempty tbd); [| constructor].
  repeat (constructor; [reflexivity |]). apply chunk_trace_harmless.
Qed.

Lemma harmless_no_fatal l pre ev post e :
  Forall harmless l -> l = pre ++ ev :: post -> fatal ev = Some e -> False.
Proof.
  intros Hl -> Hev. apply Forall_app in Hl. destruct Hl as (_ & Hl).
  inversion Hl as [| ? ? Hh _]; subst. unfold harmless in Hh. congruence.
Qed.

Lemma fatal_is_last l x e : Forall harmless l -> fatal x = Some e ->
  forall pre ev post e',
    l ++ [x] = pre ++ ev :: post -> fatal ev = Some e' ->
    post = [] /\ e' = e.
Proof.
  induction 1 as [| a l Ha _ IH]; intros Hx pre ev post e' Heq Hev.
  - destruct pre as [| b pre]; simpl in Heq.
    + injection Heq as <- <-. split; congruence.
    + injection Heq as _ Heq. now destruct pre.
  - destruct pre as [| b pre]; simpl in Heq.
    + injection Heq as <- _. unfold harmless in Ha. congruence.
    + injection Heq as _ Heq. eapply IH; eassumption.
Qed.

Lemma page_failure_last cutoff ltd dry i r e tail :
  page_failure cutoff ltd dry i r e tail ->
  exists l x,
    ListObjects i r :: tail = l ++ [x] /\
    Forall harmless l /\ fatal x = Some e.
Proof.
  destruct 1 as [e | | objs e _ _ _].
  - exists [], (ListObjects i (Fail e)). repeat split. constructor.
  - exists [], (ListObjects i (Yield (mkPage None))). repeat split.
    constructor.
  - unfold failing_page_trace.
    set (q := eligible_keys cutoff objs).
    exists (ListObjects i (Yield (mkPage (Some objs))) ::
            queued_lines q ++
            [Log (Found (length q) i); Log (DeletingQueue i (length q))]),
      (DeleteObjects q (Some e)).
    split; [| split; [| reflexivity]].
    + simpl. now rewrite <- app_assoc.
    + constructor; [reflexivity |].
      apply Forall_app. split; [apply queued_harmless | repeat constructor].
Qed.

Lemma purge_stops_at_fatal w max_days ltd dry h pre ev post e :
  snd (purge w max_days ltd dry h) = pre ++ ev :: post ->
  fatal ev = Some e ->
  post = [] /\ fst (purge w max_days ltd dry h) = inl e.
Proof.
  intros Htr Hev. pose proof (purge_cases w max_days ltd dry h) as Hc.
  destruct (purge w max_days ltd dry h) as [r tr]. cbn [fst snd] in *.
  subst tr. remember (r, pre ++ ev :: post) as res eqn:Hres.
  destruct Hc as [e0 He | c He Hit
                 | c pre0 r0 post0 e0 tail He Hit Hpre Hf
                 | c pre0 chunk post0 e0 He Hit Hdry Hch];
    injection Hres as <- Heq.
  - exfalso. eapply (harmless_no_fatal [Today (date_today w h)]);
      [repeat constructor | eassumption | eassumption].
  - exfalso. eapply harmless_no_fatal; [| eassumption | eassumption].
    unfold purge_trace. constructor; [reflexivity |].
    rewrite !Forall_app. repeat split.
    + now apply loop_trace_harmless.
    + apply final_trace_harmless.
    + repeat constructor.
  - destruct (page_failure_last _ _ _ _ _ _ _ Hf) as (l & x & Hlx & Hl & Hx).
    rewrite Hlx, app_assoc, app_comm_cons in Heq.
    destruct (fatal_is_last _ x e0
                (Forall_cons _ (eq_refl : harmless (Today (date_today w h)))
                   (proj2 (Forall_app _ _ _)
                      (conj (loop_trace_harmless c ltd dry pre0 Hpre 1) Hl)))
                Hx pre ev post e Heq Hev) as (-> & ->).
    now split.
  - unfold failing_final_trace in Heq.
    set (tbd := leftover c ltd (paginate w)) in *.
    set (n := length (chunks_of tbd)) in *.
    assert (Hl : Forall harmless
      (Today (date_today w h) ::
       loop_trace c ltd dry (paginate w) 1 ++
       Log (TotalQueued (length tbd)) :: Log (ChunksFormed n (length tbd)) ::
       chunk_trace false pre0 1 n ++
       [Log (DeletingChunk (length pre0 + 1) n (length chunk))])).
    { constructor; [reflexivity |].
      apply Forall_app. split; [now apply loop_trace_harmless |].
      repeat (constructor; [reflexivity |]).
      apply Forall_app. split; [apply chunk_trace_harmless |].
      repeat constructor. }
    assert (Hx : fatal (DeleteObjects chunk (Some e0)) = Some e0)
      by reflexivity.
    destruct (fatal_is_last _ _ e0 Hl Hx pre ev post e) as (-> & ->);
      [| assumption | now split].
    rewrite <- Heq. simpl. rewrite <- !app_assoc. simpl.
    now rewrite <- !app_assoc.
Qed.

(** ** The date is read once *)

Lemma purge_reads_date_first w max_days ltd dry h :
  exists tr, snd (purge w max_days ltd dry h) = Today (date_today w h) :: tr.
Proof.
  destruct (purge_cases w max_days ltd dry h); cbn [snd];
    eexists; reflexivity.
Qed.

Lemma delete_same w w' :
  delete_objects w' = delete_objects w -> delete w' = delete w.
Proof. intros H. unfold delete. now rewrite H. Qed.

Lemma list_loop_same w w' cutoff ltd dry it :
  delete_objects w' = delete_objects w ->
  list_loop w' cutoff ltd dry it = list_loop w cutoff ltd dry it.
Proof.
  intros H. induction it as [| r it IH]; simpl; [reflexivity |].
  unfold page_step. now rewrite IH, (delete_same w w' H).
Qed.

Lemma delete_chunks_same w w' dry chunks :
  delete_objects w' = delete_objects w ->
  delete_chunks w' dry chunks = delete_chunks w dry chunks.
Proof.
  intros H. induction chunks as [| c rest IH]; simpl; [reflexivity |].
  now rewrite IH, (delete_same w w' H).
Qed.

Lemma final_delete_same w w' dry tbd :
  delete_objects w' = delete_objects w ->
  final_delete w' dry tbd = final_delete w dry tbd.
Proof.
  intros H. unfold final_delete.
  now rewrite (delete_chunks_same w w' dry _ H).
Qed.

(** A run depends on the clock through the date at its start only. *)
Lemma purge_same w w' max_days ltd dry h :
  paginate w' = paginate w ->
  delete_objects w' = delete_objects w ->
  date_today w' h = date_today w h ->
  purge w' max_days ltd dry h = purge w max_days ltd dry h.
Proof.
  intros Hp Hs Hd. unfold purge, bind, compute_cutoff.
  rewrite Hp, Hd.
  destruct (cutoff_of (date_today w h) max_days) as [e | c]; [reflexivity |].
  rewrite (list_loop_same w w' _ _ _ _ Hs).
  destruct (list_loop w c ltd dry (paginate w) 1 [] 0 _)
    as [[e | [tbd total]] out]; [reflexivity |].
  now rewrite (final_delete_same w w' dry tbd Hs).
Qed.

(** ** What a delete call may carry *)

Lemma eligible_keys_in cutoff objs k :
  In k (eligible_keys cutoff objs) <->
  exists o, In o objs /\ Key o = k /\ (LastModified o <= cutoff)%Z.
Proof.
  unfold eligible_keys, eligible. rewrite in_map_iff. split.
  - intros (o & <- & Ho). apply filter_In in Ho. destruct Ho as (Ho & Hle).
    exists o. repeat split; [assumption |]. now apply Z.leb_le.
  - intros (o & Ho & <- & Hle). exists o. split; [reflexivity |].
    apply filter_In. split; [assumption |]. now apply Z.leb_le.
Qed.

Lemma eligible_keys_length cutoff objs :
  length (eligible_keys cutoff objs) <= length objs.
Proof.
  unfold eligible_keys. rewrite length_map. apply filter_length_le.
Qed.

Lemma listed_in r it o : In r it -> In o (page_objs r) -> In o (listed it).
Proof. intros Hr Ho. apply in_flat_map. eauto. Qed.

(** The queue of a listed page passes the gate. *)
Lemma page_queue_gated cutoff it ltd r :
  In r it -> eligible_keys cutoff (page_objs r) <> [] -> ltd = false ->
  gated cutoff it (ltd = true \/ pages_bounded it)
    (eligible_keys cutoff (page_objs r)).
Proof.
  intros Hr Hne ->. split; [assumption |]. split.
  - intros k Hk. apply eligible_keys_in in Hk.
    destruct Hk as (o & Ho & Hk & Hle). exists o.
    split; [now apply (listed_in r) | now split].
  - intros [Hltd | Hb]; [discriminate |].
    unfold pages_bounded in Hb. rewrite Forall_forall in Hb.
    specialize (Hb r Hr).
    pose proof (eligible_keys_length cutoff (page_objs r)).
    lia.
Qed.

Lemma page_batches_gated cutoff it ltd pre call :
  incl pre it -> ltd = false -> In call (page_batches cutoff pre) ->
  gated cutoff it (ltd = true \/ pages_bounded it) call.
Proof.
  intros Hincl Hltd Hin. unfold page_batches, page_queues in Hin.
  apply filter_In in Hin. destruct Hin as (Hin & Hne).
  apply in_map_iff in Hin. destruct Hin as (r & <- & Hr).
  apply page_queue_gated; [now apply Hincl | | assumption].
  intros Heq. rewrite Heq in Hne. discriminate.
Qed.

(** A chunk of the eligible keys passes the gate. *)
Lemma chunk_gated cutoff it bounded chunk :
  In chunk (chunks_of (eligible_keys cutoff (listed it))) ->
  gated cutoff it bounded chunk.
Proof.
  intros Hin.
  pose proof (chunks_of_sizes (eligible_keys cutoff (listed it))) as Hs.
  rewrite Forall_forall in Hs. specialize (Hs chunk Hin).
  split; [| split].
  - intros ->. simpl in Hs. lia.
  - intros k Hk. apply eligible_keys_in.
    rewrite <- (chunks_of_concat (eligible_keys cutoff (listed it))).
    apply in_concat. eauto.
  - intros _. apply Hs.
Qed.

Lemma purge_delete_calls_gated w max_days ltd dry h call :
  In call (delete_calls (snd (purge w max_days ltd dry h))) ->
  exists cutoff,
    cutoff_of (date_today w h) max_days = inr cutoff /\
    gated cutoff (paginate w) (ltd = true \/ pages_bounded (paginate w)) call.
Proof.
  intros Hin.
  destruct (purge_cases w max_days ltd dry h)
    as [e He | c He Hit
       | c pre r post e tail He Hit Hpre Hf
       | c pre chunk post e He Hit Hdry Hch]; cbn [snd] in Hin.
  - destruct Hin.
  - exists c. split; [assumption |].
    destruct dry; [rewrite purge_trace_dry in Hin; destruct Hin |].
    destruct ltd.
    + destruct (purge_trace_global (date_today w h) c (paginate w))
        as (Hd & _).
      rewrite Hd in Hin. now apply chunk_gated.
    + destruct (purge_trace_per_page (date_today w h) c (paginate w))
        as (Hd & _).
      rewrite Hd in Hin.
      apply (page_batches_gated c _ false (paginate w));
        [apply incl_refl | reflexivity | assumption].
  - exists c. split; [assumption |].
    cbn [delete_calls] in Hin.
    rewrite delete_calls_app, loop_trace_delete_calls in Hin.
    apply in_app_or in Hin. destruct Hin as [Hin | Hin].
    + destruct ltd; [destruct Hin |]. destruct dry; [destruct Hin |].
      apply (page_batches_gated c _ false pre);
        [| reflexivity | assumption].
      rewrite Hit. apply incl_appl, incl_refl.
    + destruct Hf as [e | | objs e Hltd Hdry Hne]; cbn [delete_calls] in Hin;
        try destruct Hin.
      unfold failing_page_trace in Hin.
      rewrite delete_calls_app, delete_calls_queued in Hin.
      cbn [app delete_calls] in Hin. destruct Hin as [<- | []].
      apply (page_queue_gated c (paginate w) ltd
               (Yield (mkPage (Some objs)))); [| assumption | assumption].
      rewrite Hit. apply in_or_app. right. now left.
  - exists c. split; [assumption |].
    cbn [delete_calls] in Hin.
    rewrite delete_calls_app, loop_trace_delete_calls in Hin.
    destruct ltd.
    2:{ unfold leftover in Hch. rewrite chunks_of_nil in Hch.
        now destruct pre. }
    cbn [orb app] in Hin. unfold failing_final_trace in Hin.
    cbn [delete_calls] in Hin. rewrite delete_calls_app in Hin.
    destruct (chunk_trace_calls pre 1
                (length (chunks_of (leftover c true (paginate w)))))
      as (Hd & _).
    rewrite Hd in Hin. cbn [delete_calls] in Hin.
    apply chunk_gated. unfold leftover in Hch. rewrite Hch.
    apply in_app_or in Hin. apply in_or_app.
    destruct Hin as [Hin | [<- | []]]; [now left | right; now left].
Qed.

Lemma unique_key {A B} (f : A -> B) (l : list A) x y :
  NoDup (map f l) -> In x l -> In y l -> f x = f y -> x = y.
Proof.
  induction l as [| a l IH]; simpl; intros Hnd Hx Hy Hf; [contradiction |].
  inversion Hnd as [| ? ? Hnotin Hnd']; subst.
  destruct Hx as [-> | Hx], Hy as [-> | Hy]; auto.
  - exfalso. apply Hnotin. rewrite Hf. now apply in_map.
  - exfalso. apply Hnotin. rewrite <- Hf. now apply in_map.
Qed.

(** ** The coordinator *)

Lemma collect_run jobs : forall h,
  collect jobs h = (inr tt, exception_lines jobs).
Proof.
  induction jobs as [| job rest IH]; intros h; [reflexivity |].
  simpl. unfold bind.
  destruct (job_result job) as [e | u]; simpl; now rewrite IH.
Qed.

Lemma do_run f a h cutoff names :
  nothing_to_find a = false ->
  cutoff_of (fleet_today f) (days a) = inr cutoff ->
  list_buckets f = inr names ->
  do f a h =
  (inr (jobs_of f a names),
   do_preamble f a ++
   exception_lines (as_completed f (jobs_of f a names))).
Proof.
  unfold nothing_to_find, do, do_preamble, jobs_of. intros Hg Hc Hn.
  unfold bind, lift. rewrite Hc, Hn.
  destruct (dry_run a); simpl;
    destruct (target_method a =? "prefix")%string; rewrite Hg; simpl;
    rewrite collect_run; simpl; now rewrite app_nil_r.
Qed.

Lemma submit_run f max_days ltd dry bucket :
  let job := submit f max_days ltd dry bucket in
  job_bucket job = bucket /\
  (job_result job, job_trace job) =
  purge (bucket_world f bucket) max_days ltd dry [].
Proof.
  unfold submit.
  now destruct (purge (bucket_world f bucket) max_days ltd dry []).
Qed.

Lemma jobs_of_run f a names job :
  In job (jobs_of f a names) ->
  In (job_bucket job) (targets a names) /\
  (job_result job, job_trace job) =
  purge (bucket_world f (job_bucket job)) (days a)
    (delete_method a =? "list_then_delete")%string (dry_run a) [].
Proof.
  unfold jobs_of. intros Hin. apply in_map_iff in Hin.
  destruct Hin as (b & <- & Hb).
  destruct (submit_run f (days a)
              (delete_method a =? "list_then_delete")%string (dry_run a) b)
    as (-> & Hrun).
  now split.
Qed.

Lemma exception_lines_in jobs b e :
  In (Log (Exception b e)) (exception_lines jobs) <->
  exists job, In job jobs /\ job_bucket job = b /\ job_result job = inl e.
Proof.
  unfold exception_lines. rewrite in_flat_map. split.
  - intros (job & Hin & Hl). exists job. split; [assumption |].
    destruct (job_result job) as [e' | u]; simpl in Hl; [| contradiction].
    destruct Hl as [Hl | []]. injection Hl as <- <-. now split.
  - intros (job & Hin & <- & Hr). exists job. split; [assumption |].
    rewrite Hr. now left.
Qed.

(** ** The example listings *)

Lemma never_fails_reliable it : reliable (Examples.bucket_of it).
Proof. intros h keys. reflexivity. Qed.

Lemma listing2500_clean : clean Examples.listing2500.
Proof. repeat constructor; eexists; reflexivity. Qed.

Lemma listing203_clean : clean Examples.listing203.
Proof. repeat constructor; eexists; reflexivity. Qed.

(** * The claims *)

(** ** C1: the retention filter *)

(** C1: an object is queued for deletion if and only if its [LastModified]
    is at or before the cutoff: the loop over a page queues exactly the keys
    of those objects, an object modified at the cutoff is queued, and one
    modified a millisecond (or a microsecond) later is not; so for the
    cutoff 2024-01-01T00:00:00Z. *)
Theorem eligible_iff_at_or_before_cutoff (r : obj) (c : Z) :
  (eligible c r = true <-> (LastModified r <= c)%Z) /\
  (forall objs h,
      fst (scan c objs [] 0 h) =
      inr (map Key (filter (fun o => (LastModified o <=? c)%Z) objs),
           length (filter (fun o => (LastModified o <=? c)%Z) objs))) /\
  (forall h,
      fst (scan c [r] [] 0 h) =
      inr (if (LastModified r <=? c)%Z then ([Key r], 1) else ([], 0))) /\
  eligible c (mkObj (Key r) c) = true /\
  eligible c (mkObj (Key r) (c + 1000)) = false /\
  eligible c (mkObj (Key r) (c + 1)) = false /\
  cutoff_of Examples.march31 90 = inr Examples.jan1 /\
  eligible Examples.jan1 (mkObj (Key r) Examples.jan1) = true /\
  eligible Examples.jan1 (mkObj (Key r) Examples.jan1_1ms) = false.
Proof.
  unfold eligible. simpl LastModified.
  repeat split.
  - apply Z.leb_le.
  - apply Z.leb_le.
  - intros objs h. rewrite scan_run. unfold eligible_keys. simpl.
    now rewrite length_map.
  - intros h. rewrite scan_run. unfold eligible_keys, eligible. simpl.
    now destruct (LastModified r <=? c)%Z.
  - apply Z.leb_refl.
  - apply Z.leb_gt. lia.
  - apply Z.leb_gt. lia.
Qed.

(** ** C2: what a delete call carries *)

(** C2: in every run, under both policies, a delete call carries a
    key sequence that is not empty, that has at most 1000 keys (the pages of
    the service holding at most 1000 objects each, which is what the
    per-page policy relies on; with [list_then_delete] whatever the pages),
    and that is made of keys of listed objects whose [LastModified] is at or
    before the cutoff: the keys of a listing being distinct, it holds the
    key of no object newer than the cutoff.  The filter is the only gate
    before the batches: in a run that deletes and meets no error the delete
    calls carry the eligible keys, in order, so an object is in a delete
    call if and only if it is at or before the cutoff. *)
Theorem delete_calls_pass_the_filter w max_days ltd dry h :
  (forall call,
      In call (delete_calls (snd (purge w max_days ltd dry h))) ->
      exists cutoff,
        cutoff_of (date_today w h) max_days = inr cutoff /\
        call <> [] /\
        (forall k, In k call ->
                   exists o, In o (listed (paginate w)) /\ Key o = k /\
                             (LastModified o <= cutoff)%Z) /\
        (ltd = true \/ pages_bounded (paginate w) -> length call <= 1000) /\
        (NoDup (map Key (listed (paginate w))) ->
         forall o, In o (listed (paginate w)) -> In (Key o) call ->
                   (LastModified o <= cutoff)%Z)) /\
  (forall cutoff,
      cutoff_of (date_today w h) max_days = inr cutoff ->
      reliable w -> clean (paginate w) -> dry = false ->
      let sent := concat (delete_calls (snd (purge w max_days ltd dry h))) in
      sent = eligible_keys cutoff (listed (paginate w)) /\
      (forall k,
          In k sent <->
          exists o, In o (listed (paginate w)) /\ Key o = k /\
                    (LastModified o <= cutoff)%Z) /\
      (NoDup (map Key (listed (paginate w))) ->
       forall o, In o (listed (paginate w)) ->
                 (In (Key o) sent <-> (LastModified o <= cutoff)%Z)) /\
      (NoDup (map Key (listed (paginate w))) ->
       forall o,
         In o (listed (paginate w)) ->
         ((exists call,
              In call (delete_calls (snd (purge w max_days ltd dry h))) /\
              In (Key o) call) <->
          (LastModified o <= cutoff)%Z))).
Proof.
  split.
  - intros call Hin.
    destruct (purge_delete_calls_gated w max_days ltd dry h call Hin)
      as (c & Hc & Hne & Hkeys & Hlen).
    exists c. repeat split; auto.
    intros Hnd o Ho Hk. destruct (Hkeys (Key o) Hk) as (o' & Ho' & Hkey & Hle).
    now rewrite <- (unique_key Key _ o' o Hnd Ho' Ho Hkey).
  - intros cutoff Hc Hw Hit -> sent.
    assert (Hsent : sent = eligible_keys cutoff (listed (paginate w))).
    { subst sent.
      rewrite (purge_run w max_days ltd false h cutoff Hc (or_intror Hw) Hit).
      cbn [snd]. destruct ltd.
      - destruct (purge_trace_global (date_today w h) cutoff (paginate w))
          as (-> & _).
        apply chunks_of_concat.
      - destruct (purge_trace_per_page (date_today w h) cutoff (paginate w))
          as (-> & _).
        apply concat_page_batches. }
    assert (Hobj : NoDup (map Key (listed (paginate w))) ->
                   forall o, In o (listed (paginate w)) ->
                             (In (Key o) sent <->
                              (LastModified o <= cutoff)%Z)).
    { rewrite Hsent. intros Hnd o Ho. rewrite eligible_keys_in. split.
      - intros (o' & Ho' & Hk & Hle).
        now rewrite <- (unique_key Key _ o' o Hnd Ho' Ho Hk).
      - intros Hle. exists o. auto. }
    split; [exact Hsent |]. split; [| split; [exact Hobj |]].
    + intros k. rewrite Hsent. apply eligible_keys_in.
    + intros Hnd o Ho. rewrite <- (Hobj Hnd o Ho). subst sent.
      rewrite in_concat. split.
      * intros (call & Hcall & Hk). eauto.
      * intros (call & Hcall & Hk). eauto.
Qed.

(** The listing of 2500 eligible and 300 newer objects in pages of 1000,
    900 and 900 objects, deleted page by page: every call is within the
    bound, object 1599 is sent, object 1600 is not.  And the listing of
    eight objects with distinct keys: object 0, at the cutoff, is in a
    delete call, object 2, a millisecond newer, is in none. *)
Lemma delete_calls_pass_the_filter_witness :
  let w := Examples.bucket_of Examples.listing2500 in
  let sent := concat (delete_calls (snd (purge w 90 false false []))) in
  let w8 := Examples.bucket_of Examples.listing203 in
  let calls8 := delete_calls (snd (purge w8 90 false false [])) in
  pages_bounded (paginate w) /\
  Forall (fun call => call <> [] /\ length call <= 1000)
         (delete_calls (snd (purge w 90 false false []))) /\
  length sent = 2500 /\
  In (Examples.key_of 1599) sent /\ ~ In (Examples.key_of 1600) sent /\
  NoDup (map Key (listed (paginate w8))) /\
  (exists call, In call calls8 /\ In (Examples.key_of 0) call) /\
  ~ (exists call, In call calls8 /\ In (Examples.key_of 2) call).
Proof.
  intros w sent w8 calls8.
  assert (Hb : pages_bounded (paginate w)).
  { apply Forall_forall. intros r Hr. apply Nat.leb_le.
    repeat (destruct Hr as [<- | Hr]; [vm_compute; reflexivity |]).
    destruct Hr. }
  assert (Hnd : NoDup (map Key (listed (paginate w8)))).
  { vm_compute. repeat (constructor; [simpl; intuition discriminate |]).
    constructor. }
  destruct (delete_calls_pass_the_filter w 90 false false []) as (Hcalls & H).
  destruct (H Examples.jan1 eq_refl
              (never_fails_reliable Examples.listing2500)
              listing2500_clean eq_refl) as (Hsent & Hkeys & _).
  fold sent in Hsent, Hkeys.
  destruct (delete_calls_pass_the_filter w8 90 false false []) as (_ & H8).
  destruct (H8 Examples.jan1 eq_refl
              (never_fails_reliable Examples.listing203)
              listing203_clean eq_refl) as (_ & _ & _ & Hobj).
  specialize (Hobj Hnd). fold calls8 in Hobj.
  split; [exact Hb |]. split.
  { apply Forall_forall. intros call Hin.
    destruct (Hcalls call Hin) as (c & _ & Hne & _ & Hlen & _).
    split; [exact Hne | apply Hlen; right; exact Hb]. }
  split; [rewrite Hsent; vm_compute; reflexivity |]. split.
  { apply Hkeys. exists (mkObj (Examples.key_of 1599) Examples.jan1).
    split; [| split; [reflexivity | vm_compute; discriminate]].
    apply in_flat_map. exists (Examples.some_page
      (Examples.objects 1000 600 Examples.jan1 ++
       Examples.objects 1600 300 Examples.jan1_1ms)).
    split; [right; left; reflexivity |].
    apply in_or_app. left. unfold Examples.objects. apply in_map_iff.
    exists 1599. split; [reflexivity |]. apply in_seq. lia. }
  split.
  { rewrite Hsent. intros Hin.
    assert (Hnot : existsb (String.eqb (Examples.key_of 1600))
                     (eligible_keys Examples.jan1 (listed (paginate w)))
                   = false) by (vm_compute; reflexivity).
    apply not_true_iff_false in Hnot. apply Hnot.
    apply existsb_exists. exists (Examples.key_of 1600).
    split; [assumption | apply String.eqb_refl]. }
  split; [exact Hnd |]. split.
  - apply (proj2 (Hobj (mkObj (Examples.key_of 0) Examples.jan1)
                    (or_introl eq_refl))).
    vm_compute. discriminate.
  - intros Hex.
    apply (proj1 (Hobj (mkObj (Examples.key_of 2) Examples.jan1_1ms)
                    (or_intror (or_intror (or_introl eq_refl))))) in Hex.
    vm_compute in Hex. apply Hex. reflexivity.
Defined.

(** ** C3: [list_then_delete] *)

(** C3: with [list_then_delete] (GLOBAL_CHUNKED), in a run that deletes and
    in which listing and deleting succeed, the delete calls are the chunks of
    the eligible keys: [ceil(K/1000)] calls, issued after the last listing
    call, each with at most 1000 keys, together the eligible keys once each in
    the order of the listing; 2500 eligible keys give calls of 1000, 1000 and
    500 keys and a reported total of 2500. *)
Theorem list_then_delete_chunks w max_days h cutoff :
  cutoff_of (date_today w h) max_days = inr cutoff ->
  reliable w -> clean (paginate w) ->
  let keys := eligible_keys cutoff (listed (paginate w)) in
  let tr := snd (purge w max_days true false h) in
  fst (purge w max_days true false h) = inr tt /\
  delete_calls tr = chunks_of keys /\
  length (delete_calls tr) = ceil_div (length keys) 1000 /\
  Forall (fun call => 0 < length call <= 1000) (delete_calls tr) /\
  concat (delete_calls tr) = keys /\
  calls tr =
    list_calls (paginate w) 1 ++
    map (fun call => DeleteObjects call None) (chunks_of keys) /\
  reported tr = Some (length keys) /\
  (length keys = 2500 ->
   map (@length string) (delete_calls tr) = [1000; 1000; 500] /\
   reported tr = Some 2500).
Proof.
  intros Hc Hw Hit keys tr.
  assert (Hrun := purge_run w max_days true false h cutoff Hc
                    (or_intror Hw) Hit).
  subst tr. rewrite Hrun. cbn [fst snd].
  destruct (purge_trace_global (date_today w h) cutoff (paginate w))
    as (Hd & Hcalls).
  fold keys in Hd, Hcalls.
  rewrite Hd, Hcalls, purge_trace_reported. fold keys.
  repeat split.
  - apply chunks_of_length.
  - apply chunks_of_sizes.
  - apply chunks_of_concat.
  - rewrite chunks_of_lengths, H. reflexivity.
  - now rewrite H.
Qed.

(** The listing of 2500 eligible objects, in three pages. *)
Lemma list_then_delete_chunks_witness :
  let w := Examples.bucket_of Examples.listing2500 in
  length (eligible_keys Examples.jan1 (listed (paginate w))) = 2500 /\
  map (@length string) (delete_calls (snd (purge w 90 true false []))) =
  [1000; 1000; 500] /\
  reported (snd (purge w 90 true false [])) = Some 2500.
Proof.
  intros w.
  assert (Hk : length (eligible_keys Examples.jan1 (listed (paginate w)))
               = 2500) by (vm_compute; reflexivity).
  split; [exact Hk |].
  pose proof (list_then_delete_chunks w 90 [] Examples.jan1 eq_refl
                (never_fails_reliable Examples.listing2500)
                listing2500_clean) as H.
  cbv zeta in H. apply H. exact Hk.
Defined.

(** ** C4: [delete_every_page] *)

(** C4: with [delete_every_page] (PER_PAGE), in a run that deletes and in
    which listing and deleting succeed, there is one delete call for each page
    whose queue is not empty, issued right after that page is listed and
    before the next page is asked for, and none for a page with an empty
    queue; pages with 2, 0 and 3 eligible objects give 2 delete calls and a
    reported total of 5. *)
Theorem delete_every_page_calls w max_days h cutoff :
  cutoff_of (date_today w h) max_days = inr cutoff ->
  reliable w -> clean (paginate w) ->
  let it := paginate w in
  let tr := snd (purge w max_days false false h) in
  fst (purge w max_days false false h) = inr tt /\
  delete_calls tr = filter nonempty (page_queues cutoff it) /\
  calls tr = per_page_calls cutoff it 1 /\
  reported tr =
    Some (list_sum (map (@length string) (page_queues cutoff it))) /\
  (forall r1 r2 r3,
      it = [r1; r2; r3] ->
      length (eligible_keys cutoff (page_objs r1)) = 2 ->
      length (eligible_keys cutoff (page_objs r2)) = 0 ->
      length (eligible_keys cutoff (page_objs r3)) = 3 ->
      length (delete_calls tr) = 2 /\ reported tr = Some 5).
Proof.
  intros Hc Hw Hit it tr.
  assert (Hrun := purge_run w max_days false false h cutoff Hc
                    (or_intror Hw) Hit).
  subst tr. rewrite Hrun. cbn [fst snd].
  destruct (purge_trace_per_page (date_today w h) cutoff (paginate w))
    as (Hd & Hcalls).
  rewrite Hd, Hcalls, purge_trace_reported, sum_page_queues.
  subst it.
  split; [reflexivity | split; [reflexivity | split; [reflexivity |]]].
  split; [reflexivity |].
  intros r1 r2 r3 Heq H1 H2 H3. split.
  - unfold page_batches, page_queues. rewrite Heq. cbn [map filter].
    destruct (eligible_keys cutoff (page_objs r1)) as [| ? ?]; [discriminate |].
    destruct (eligible_keys cutoff (page_objs r2)) as [| ? ?]; [| discriminate].
    destruct (eligible_keys cutoff (page_objs r3)) as [| ? ?]; [discriminate |].
    reflexivity.
  - rewrite <- sum_page_queues. rewrite Heq.
    unfold page_queues, list_sum. cbn [map fold_right].
    rewrite H1, H2, H3. reflexivity.
Qed.

(** The listing whose pages hold 2, 0 and 3 eligible objects. *)
Lemma delete_every_page_calls_witness :
  let w := Examples.bucket_of Examples.listing203 in
  map (@length string) (page_queues Examples.jan1 (paginate w)) = [2; 0; 3] /\
  length (delete_calls (snd (purge w 90 false false []))) = 2 /\
  reported (snd (purge w 90 false false [])) = Some 5.
Proof.
  intros w. split; [reflexivity |].
  pose proof (delete_every_page_calls w 90 [] Examples.jan1 eq_refl
                (never_fails_reliable Examples.listing203)
                listing203_clean) as H.
  cbv zeta in H. destruct H as (_ & _ & _ & _ & H).
  apply (H _ _ _ eq_refl); reflexivity.
Defined.

(** ** C5: dry runs *)

(** C5: a dry run issues no delete call, whatever the listing, the policy and
    the answers of the service; and it reports the total that a run that
    deletes reports on the same listing: whenever the run that deletes
    completes, the dry run completes with the same report, and when no delete
    call fails the two runs report alike. *)
Theorem dry_run_deletes_nothing w max_days ltd h :
  delete_calls (snd (purge w max_days ltd true h)) = [] /\
  (fst (purge w max_days ltd false h) = inr tt ->
   fst (purge w max_days ltd true h) = inr tt /\
   reported (snd (purge w max_days ltd true h)) =
   reported (snd (purge w max_days ltd false h))) /\
  (forall n,
      reported (snd (purge w max_days ltd false h)) = Some n ->
      reported (snd (purge w max_days ltd true h)) = Some n) /\
  (reliable w ->
   reported (snd (purge w max_days ltd true h)) =
   reported (snd (purge w max_days ltd false h))).
Proof.
  assert (Hdry : fst (purge w max_days ltd false h) = inr tt ->
    fst (purge w max_days ltd true h) = inr tt /\
    reported (snd (purge w max_days ltd true h)) =
    reported (snd (purge w max_days ltd false h))).
  { intros Hr.
    destruct (purge_completed_inv _ _ _ _ _ Hr) as (c & Hc & Hit & ->).
    rewrite (purge_run w max_days ltd true h c Hc (or_introl eq_refl) Hit).
    cbn [fst snd]. now rewrite !purge_trace_reported. }
  split; [| split; [exact Hdry | split]].
  - pose proof (purge_cases w max_days ltd true h) as Hc.
    destruct (purge w max_days ltd true h) as [r tr]. cbn [snd].
    inversion Hc as [e He | c He Hit | c pre r' post e tail He Hit Hpre Hf
                    | c pre chunk post e He Hit Hdry' Hch]; subst.
    + reflexivity.
    + apply purge_trace_dry.
    + apply page_failure_dry in Hf. subst tail.
      cbn [delete_calls]. rewrite delete_calls_app, loop_trace_dry.
      reflexivity.
    + discriminate.
  - intros n Hn.
    destruct (Hdry (purge_reported_inv _ _ _ _ _ _ Hn)) as (_ & ->).
    exact Hn.
  - intros Hw.
    destruct (fst (purge w max_days ltd false h)) as [e | []] eqn:Hr.
    2:{ now destruct (Hdry eq_refl) as (_ & ->). }
    destruct (fst (purge w max_days ltd true h)) as [e' | []] eqn:Hr'.
    2:{ destruct (purge_completed_inv _ _ _ _ _ Hr') as (c & Hc & Hit & _).
        rewrite (purge_run w max_days ltd false h c Hc (or_intror Hw) Hit)
          in Hr.
        discriminate. }
    rewrite (purge_failed_unreported _ _ _ _ _ _ Hr).
    now rewrite (purge_failed_unreported _ _ _ _ _ _ Hr').
Qed.

(** The listing of 2500 eligible objects, dry and not. *)
Lemma dry_run_deletes_nothing_witness :
  let w := Examples.bucket_of Examples.listing2500 in
  delete_calls (snd (purge w 90 true true [])) = [] /\
  reported (snd (purge w 90 true true [])) = Some 2500 /\
  reported (snd (purge w 90 true false [])) = Some 2500.
Proof.
  intros w.
  destruct (dry_run_deletes_nothing w 90 true []) as (Hnone & Hsame & _ & _).
  split; [exact Hnone |].
  assert (Hrun : fst (purge w 90 true false []) = inr tt)
    by (vm_compute; reflexivity).
  destruct (Hsame Hrun) as (_ & ->).
  split; vm_compute; reflexivity.
Defined.

(** ** C6: the reported total *)

(** C6: the total on the last line of [purge] is the sum over the pages of
    the number of eligible objects found on each; it is reported exactly by
    the runs that complete, and it is the same under both policies: two runs
    on the same listing that both report, report the same total, and when no
    delete call can fail the two policies report alike. *)
Theorem reported_total_is_sum_of_pages w max_days dry h :
  (forall ltd,
      fst (purge w max_days ltd dry h) = inr tt ->
      exists cutoff,
        cutoff_of (date_today w h) max_days = inr cutoff /\
        reported (snd (purge w max_days ltd dry h)) =
        Some (list_sum (map (@length string)
                          (page_queues cutoff (paginate w))))) /\
  (forall ltd n,
      reported (snd (purge w max_days ltd dry h)) = Some n ->
      fst (purge w max_days ltd dry h) = inr tt) /\
  (forall n n',
      reported (snd (purge w max_days true dry h)) = Some n ->
      reported (snd (purge w max_days false dry h)) = Some n' ->
      n = n') /\
  (unfailing w dry ->
   reported (snd (purge w max_days true dry h)) =
   reported (snd (purge w max_days false dry h))).
Proof.
  assert (Hsum : forall ltd,
    fst (purge w max_days ltd dry h) = inr tt ->
    exists cutoff,
      cutoff_of (date_today w h) max_days = inr cutoff /\
      clean (paginate w) /\
      reported (snd (purge w max_days ltd dry h)) =
      Some (list_sum (map (@length string)
                        (page_queues cutoff (paginate w))))).
  { intros ltd Hr.
    destruct (purge_completed_inv _ _ _ _ _ Hr) as (c & Hc & Hit & ->).
    exists c. split; [assumption |]. split; [assumption |].
    now rewrite purge_trace_reported, sum_page_queues. }
  split; [| split; [| split]].
  - intros ltd Hr. destruct (Hsum ltd Hr) as (c & Hc & _ & Hrep). eauto.
  - intros ltd n. apply purge_reported_inv.
  - intros n n' Hn Hn'.
    destruct (Hsum true (purge_reported_inv _ _ _ _ _ _ Hn))
      as (c & Hc & _ & Hrep).
    destruct (Hsum false (purge_reported_inv _ _ _ _ _ _ Hn'))
      as (c' & Hc' & _ & Hrep').
    congruence.
  - intros Hw.
    assert (Hboth : forall ltd ltd',
      fst (purge w max_days ltd dry h) = inr tt ->
      reported (snd (purge w max_days ltd dry h)) =
      reported (snd (purge w max_days ltd' dry h))).
    { intros ltd ltd' Hr.
      destruct (purge_completed_inv _ _ _ _ _ Hr) as (c & Hc & Hit & ->).
      rewrite (purge_run w max_days ltd' dry h c Hc Hw Hit). cbn [snd].
      now rewrite !purge_trace_reported. }
    destruct (fst (purge w max_days true dry h)) as [e | []] eqn:Ht.
    2:{ now apply Hboth. }
    destruct (fst (purge w max_days false dry h)) as [e' | []] eqn:Hf.
    2:{ symmetry. now apply Hboth. }
    rewrite (purge_failed_unreported _ _ _ _ _ _ Ht).
    now rewrite (purge_failed_unreported _ _ _ _ _ _ Hf).
Qed.

(** The listing whose pages hold 2, 0 and 3 eligible objects, under both
    policies. *)
Lemma reported_total_is_sum_of_pages_witness :
  let w := Examples.bucket_of Examples.listing203 in
  reported (snd (purge w 90 true false [])) = Some 5 /\
  reported (snd (purge w 90 false false [])) = Some 5 /\
  reported (snd (purge w 90 true false [])) =
  reported (snd (purge w 90 false false [])).
Proof.
  intros w.
  destruct (reported_total_is_sum_of_pages w 90 false [])
    as (Hsum & _ & _ & Hsame).
  split; [| split].
  - destruct (Hsum true eq_refl) as (c & Hc & ->).
    injection Hc as <-. reflexivity.
  - destruct (Hsum false eq_refl) as (c & Hc & ->).
    injection Hc as <-. reflexivity.
  - apply Hsame. right. apply never_fails_reliable.
Defined.

(** ** C7: no second deletion under [delete_every_page] *)

(** C7, as the code has it: with [delete_every_page] the queue of a page is
    emptied once it has been deleted, so [to_be_deleted] is as it was when
    the loop over the pages ends and the final chunked deletion does nothing:
    a run that completes consists of the page steps and the last line, its
    delete calls are the non-empty page queues, and every eligible key is in
    the delete calls as often as it is listed, not twice. *)
Theorem delete_every_page_deletes_once w max_days h cutoff :
  cutoff_of (date_today w h) max_days = inr cutoff ->
  reliable w -> clean (paginate w) ->
  let keys := eligible_keys cutoff (listed (paginate w)) in
  let tr := snd (purge w max_days false false h) in
  (forall dry it i tbd total h' tbd' total' out,
      list_loop w cutoff false dry it i tbd total h' =
      (inr (tbd', total'), out) ->
      tbd' = tbd) /\
  leftover cutoff false (paginate w) = [] /\
  tr = Today (date_today w h) ::
       loop_trace cutoff false false (paginate w) 1 ++
       [Log (Finished (length keys))] /\
  delete_calls tr = page_batches cutoff (paginate w) /\
  concat (delete_calls tr) = keys /\
  (forall k,
      count_occ string_dec (concat (delete_calls tr)) k =
      count_occ string_dec keys k).
Proof.
  intros Hc Hw Hit keys tr.
  assert (Hrun := purge_run w max_days false false h cutoff Hc
                    (or_intror Hw) Hit).
  subst tr. rewrite Hrun. cbn [snd].
  destruct (purge_trace_per_page (date_today w h) cutoff (paginate w))
    as (Hd & _).
  rewrite Hd, concat_page_batches. fold keys.
  split; [| split; [| split; [| split; [| split]]]]; try reflexivity.
  intros dry it i tbd total h' tbd' total' out.
  apply list_loop_per_page_leftover.
Qed.

(** The listing whose pages hold 2, 0 and 3 eligible objects: five keys are
    sent, each once. *)
Lemma delete_every_page_deletes_once_witness :
  let w := Examples.bucket_of Examples.listing203 in
  concat (delete_calls (snd (purge w 90 false false []))) =
  map Examples.key_of [0; 1; 5; 6; 7].
Proof.
  intros w.
  pose proof (delete_every_page_deletes_once w 90 [] Examples.jan1 eq_refl
                (never_fails_reliable Examples.listing203)
                listing203_clean) as H.
  cbv zeta in H. destruct H as (_ & _ & _ & _ & H & _).
  rewrite H. reflexivity.
Defined.

(** C7, as the claim has it, fails: a page with one eligible object is
    deleted by the delete call of its page and by no other call. *)
Lemma delete_every_page_no_second_call :
  let w := Examples.bucket_of Examples.listing1 in
  let tr := snd (purge w 90 false false []) in
  let k := Examples.key_of 0 in
  In k (eligible_keys Examples.jan1 (listed (paginate w))) /\
  tr = [Today Examples.march31;
        ListObjects 1 (Examples.some_page (Examples.objects 0 1 Examples.jan1));
        Log (Queued k); Log (Found 1 1); Log (DeletingQueue 1 1);
        DeleteObjects [k] None;
        Log (Finished 1)] /\
  delete_calls tr = [[k]] /\
  ~ (exists before call1 between call2 after,
        delete_calls tr = before ++ call1 :: between ++ call2 :: after /\
        In k call1 /\ In k call2).
Proof.
  intros w tr k.
  split; [left; reflexivity |].
  split; [reflexivity |].
  split; [reflexivity |].
  intros (before & call1 & between & call2 & after & Heq & _).
  apply (f_equal (@length (list string))) in Heq.
  rewrite length_app in Heq. cbn [length] in Heq.
  rewrite length_app in Heq. cbn [length] in Heq.
  change (length (delete_calls tr)) with 1 in Heq. lia.
Qed.

(** ** C8: the cutoff *)

(** C8, as the code has it: each call of [purge], one per bucket, reads the
    date once, when it starts, and computes its cutoff from it; whatever the
    date becomes while the bucket is listed and deleted, the run is the one
    with that cutoff, and every comparison of a run that completes used it.
    [do] reads the date for its log line only: each job reads the date of
    its own start, and the jobs are the same whatever date [do] read. *)
Theorem cutoff_fixed_per_bucket w max_days ltd dry h :
  (forall later : list event -> Z,
      later h = date_today w h ->
      purge (mkWorld later (paginate w) (delete_objects w))
        max_days ltd dry h =
      purge w max_days ltd dry h) /\
  (exists tr,
      snd (purge w max_days ltd dry h) = Today (date_today w h) :: tr) /\
  (forall cutoff,
      cutoff_of (date_today w h) max_days = inr cutoff ->
      reliable w -> clean (paginate w) -> dry = false ->
      concat (delete_calls (snd (purge w max_days ltd dry h))) =
      eligible_keys cutoff (listed (paginate w))) /\
  (forall f a names job,
      In job (jobs_of f a names) ->
      (exists tr,
          job_trace job =
          Today (date_today (bucket_world f (job_bucket job)) []) :: tr) /\
      forall d,
        jobs_of (mkFleet d (list_buckets f) (bucket_world f) (as_completed f))
          a names = jobs_of f a names).
Proof.
  split; [| split; [apply purge_reads_date_first | split]].
  - intros later Hl. now apply purge_same.
  - intros cutoff Hc Hw Hit ->.
    rewrite (purge_run w max_days ltd false h cutoff Hc (or_intror Hw) Hit).
    cbn [snd]. destruct ltd.
    + destruct (purge_trace_global (date_today w h) cutoff (paginate w))
        as (-> & _).
      apply chunks_of_concat.
    + destruct (purge_trace_per_page (date_today w h) cutoff (paginate w))
        as (-> & _).
      apply concat_page_batches.
  - intros f a names job Hin.
    destruct (jobs_of_run f a names job Hin) as (_ & Hrun).
    split; [| reflexivity].
    destruct (purge_reads_date_first (bucket_world f (job_bucket job))
                (days a) (delete_method a =? "list_then_delete")%string
                (dry_run a) []) as (tr & Htr).
    exists tr. now rewrite <- Hrun in Htr.
Qed.

(** A clock that passes midnight right after the run has started. *)
Lemma cutoff_fixed_per_bucket_witness :
  let w := Examples.bucket_of Examples.listing203 in
  let later := fun h : list event =>
                 match h with
                 | [] => Examples.march31
                 | _ => (Examples.march31 + 1)%Z
                 end in
  purge (mkWorld later (paginate w) (delete_objects w)) 90 false false [] =
  purge w 90 false false [] /\
  concat (delete_calls (snd (purge w 90 false false []))) =
  eligible_keys Examples.jan1 (listed (paginate w)).
Proof.
  intros w later.
  destruct (cutoff_fixed_per_bucket w 90 false false [])
    as (Hfixed & _ & Hused & _).
  split.
  - apply Hfixed. reflexivity.
  - apply Hused;
      [reflexivity | apply never_fails_reliable
      | apply listing203_clean | reflexivity].
Defined.

(** C8, as the claim has it, fails: two buckets of one run with the same
    listing, an object modified a millisecond after 2024-01-01T00:00:00Z.
    [do] starts on 2024-03-31 and logs the cutoff date 2024-01-01; the first
    job starts that day and keeps the object, the second job starts after
    midnight and deletes it. No single cutoff accounts for both. *)
Lemma cutoff_differs_between_buckets :
  let f := Examples.fleet_midnight in
  let jobs := jobs_of f Examples.by_prefix ["logs-a"; "logs-b"] in
  do f Examples.by_prefix [] =
  (inr jobs,
   [Today Examples.march31; Log (CutoffDate 738886); ListBuckets]) /\
  map (fun job => paginate (bucket_world f (job_bucket job))) jobs =
  [Examples.listing_after; Examples.listing_after] /\
  map job_result jobs = [inr tt; inr tt] /\
  map (fun job => delete_calls (job_trace job)) jobs =
  [[]; [[Examples.key_of 0]]] /\
  ~ (exists cutoff,
        Forall (fun job =>
                  concat (delete_calls (job_trace job)) =
                  eligible_keys cutoff
                    (listed (paginate (bucket_world f (job_bucket job)))))
               jobs).
Proof.
  intros f jobs.
  split; [reflexivity |]. split; [reflexivity |].
  split; [reflexivity |]. split; [reflexivity |].
  intros (cutoff & Hall).
  inversion Hall as [| ja rest Ha Hrest]; subst.
  inversion Hrest as [| jb rest' Hb _]; subst.
  assert (Ha' : @nil string =
                eligible_keys cutoff (Examples.objects 0 1 Examples.jan1_1ms))
    by exact Ha.
  assert (Hb' : [Examples.key_of 0] =
                eligible_keys cutoff (Examples.objects 0 1 Examples.jan1_1ms))
    by exact Hb.
  rewrite <- Ha' in Hb'. discriminate.
Qed.

(** ** C9: failures stay in their bucket *)

(** C9: an error of a listing or delete call ends the job of its bucket:
    the failing call is the last event of that job (no further call, no
    second attempt) and its exception is the result of the job; [do] submits
    one job per bucket, each job is the run of [purge] on its own bucket
    whatever the other jobs do, and [do] itself returns normally after it has
    logged, job by job as they are collected, the exception of exactly the
    jobs that failed. *)
Theorem bucket_failure_is_contained f a h cutoff names :
  nothing_to_find a = false ->
  cutoff_of (fleet_today f) (days a) = inr cutoff ->
  list_buckets f = inr names ->
  (forall l, Permutation (as_completed f l) l) ->
  let jobs := jobs_of f a names in
  let ltd := (delete_method a =? "list_then_delete")%string in
  fst (do f a h) = inr jobs /\
  snd (do f a h) = do_preamble f a ++ exception_lines (as_completed f jobs) /\
  map job_bucket jobs = targets a names /\
  (forall job,
      In job jobs ->
      (job_result job, job_trace job) =
      purge (bucket_world f (job_bucket job)) (days a) ltd (dry_run a) [] /\
      forall pre ev post e,
        job_trace job = pre ++ ev :: post -> failure ev = Some e ->
        post = [] /\ job_result job = inl e) /\
  (forall job e,
      In job jobs -> job_result job = inl e ->
      In (Log (Exception (job_bucket job) e)) (snd (do f a h))) /\
  (forall b e,
      In (Log (Exception b e)) (snd (do f a h)) ->
      exists job, In job jobs /\ job_bucket job = b /\ job_result job = inl e).
Proof.
  intros Hg Hc Hn Hperm jobs ltd.
  rewrite (do_run f a h cutoff names Hg Hc Hn). cbn [fst snd]. fold jobs.
  split; [reflexivity |]. split; [reflexivity |].
  split; [| split; [| split]].
  - unfold jobs, jobs_of. rewrite map_map.
    erewrite map_ext; [apply map_id |].
    intros b. apply submit_run.
  - intros job Hin. destruct (jobs_of_run f a names job Hin) as (_ & Hrun).
    split; [exact Hrun |].
    intros pre ev post e Htr Hev. apply failure_fatal in Hev.
    fold ltd in Hrun.
    destruct (purge_stops_at_fatal (bucket_world f (job_bucket job)) (days a)
                ltd (dry_run a) [] pre ev post e) as (Hpost & Hres);
      [now rewrite <- Hrun | assumption |].
    split; [assumption |]. now rewrite <- Hrun in Hres.
  - intros job e Hin Hr. apply in_or_app. right.
    apply exception_lines_in. exists job. repeat split; [| assumption].
    apply (Permutation_in job (Permutation_sym (Hperm jobs)) Hin).
  - intros b e Hin. apply in_app_or in Hin. destruct Hin as [Hin | Hin].
    + exfalso. unfold do_preamble in Hin.
      destruct (dry_run a); simpl in Hin;
        repeat (destruct Hin as [Hin | Hin]; [discriminate |]);
        contradiction.
    + apply exception_lines_in in Hin.
      destruct Hin as (job & Hin & Hb & Hr).
      exists job. repeat split; [| assumption | assumption].
      apply (Permutation_in job (Hperm jobs) Hin).
Qed.

(** Three buckets; the listing of the first one fails on its second page. *)
Lemma bucket_failure_is_contained_witness :
  let jobs := jobs_of Examples.fleet3 Examples.by_prefix
                ["logs-a"; "other"; "logs-b"; "logs-c"] in
  map job_bucket jobs = ["logs-a"; "logs-b"; "logs-c"] /\
  map job_result jobs = [inl (ClientError "AccessDenied"); inr tt; inr tt] /\
  map reported (map job_trace jobs) = [None; Some 5; Some 1] /\
  do Examples.fleet3 Examples.by_prefix [] =
  (inr jobs,
   [Today Examples.march31; Log (CutoffDate 738886); ListBuckets;
    Log (Exception "logs-a" (ClientError "AccessDenied"))]).
Proof.
  intros jobs.
  assert (Hperm : forall l : list future, Permutation (rev l) l)
    by (intros l; apply Permutation_sym, Permutation_rev).
  destruct (bucket_failure_is_contained Examples.fleet3 Examples.by_prefix []
              Examples.jan1 ["logs-a"; "other"; "logs-b"; "logs-c"]
              eq_refl eq_refl eq_refl Hperm)
    as (Hres & Htr & Hb & _).
  split; [exact Hb |].
  split; [vm_compute; reflexivity |].
  split; [vm_compute; reflexivity |].
  rewrite (surjective_pairing (do Examples.fleet3 Examples.by_prefix [])).
  rewrite Hres, Htr. reflexivity.
Defined.

(** ** C10: pages without [Contents] *)

(** C10: a page that arrives without [Contents] ends the run with
    [KeyError]: in every run, under both policies and dry or not, the listing
    call that brought such a page is the last event and the exception is the
    result of the job; and when the pages before it went through, this is how
    the run ends, right after that listing call, with nothing queued or
    deleted for the page (and, with [list_then_delete], with no delete call
    at all). *)
Theorem page_without_contents_fails w max_days ltd dry h :
  (forall pre i post,
      snd (purge w max_days ltd dry h) =
      pre ++ ListObjects i (Yield (mkPage None)) :: post ->
      post = [] /\
      fst (purge w max_days ltd dry h) = inl (KeyError "Contents")) /\
  (forall cutoff before after,
      cutoff_of (date_today w h) max_days = inr cutoff ->
      unfailing w dry -> clean before ->
      paginate w = before ++ Yield (mkPage None) :: after ->
      purge w max_days ltd dry h =
      (inl (KeyError "Contents"),
       Today (date_today w h) ::
       loop_trace cutoff ltd dry before 1 ++
       [ListObjects (length before + 1) (Yield (mkPage None))]) /\
      (ltd = true -> delete_calls (snd (purge w max_days ltd dry h)) = [])).
Proof.
  split.
  - intros pre i post Htr.
    apply (purge_stops_at_fatal w max_days ltd dry h pre _ post _ Htr).
    reflexivity.
  - intros cutoff before after Hc Hw Hbefore Hit.
    assert (Hrun : purge w max_days ltd dry h =
      (inl (KeyError "Contents"),
       Today (date_today w h) ::
       loop_trace cutoff ltd dry before 1 ++
       [ListObjects (length before + 1) (Yield (mkPage None))])).
    { unfold purge. unfold bind at 1. unfold compute_cutoff. rewrite Hc.
      unfold bind at 1. rewrite Hit.
      rewrite list_loop_through by assumption.
      reflexivity. }
    split; [exact Hrun |].
    intros ->. rewrite Hrun. cbn [snd delete_calls].
    rewrite delete_calls_app.
    destruct (loop_trace_global cutoff dry before 1) as (-> & _).
    reflexivity.
Qed.

(** An empty bucket, under both policies, deleting and dry. *)
Lemma page_without_contents_fails_witness :
  let w := Examples.bucket_of Examples.listing_empty in
  purge w 90 true false [] =
  (inl (KeyError "Contents"),
   [Today Examples.march31; ListObjects 1 (Yield (mkPage None))]) /\
  purge w 90 false true [] =
  (inl (KeyError "Contents"),
   [Today Examples.march31; ListObjects 1 (Yield (mkPage None))]).
Proof.
  intros w. split.
  - destruct (page_without_contents_fails w 90 true false []) as (_ & H).
    apply (H Examples.jan1 [] []);
      [reflexivity | right; apply never_fails_reliable
      | constructor | reflexivity].
  - destruct (page_without_contents_fails w 90 false true []) as (_ & H).
    apply (H Examples.jan1 [] []);
      [reflexivity | left; reflexivity | constructor | reflexivity].
Defined.

(** * Further properties of the code *)

(** ** The logger of a job *)

Lemma translate_char_fixed c :
  translate_char (translate_char c) = translate_char c.
Proof.
  unfold translate_char.
  destruct (Ascii.eqb c " " || Ascii.eqb c ".")%bool eqn:Hc; [reflexivity |].
  now rewrite Hc.
Qed.

Lemma translate_char_not c x :
  x = " "%char \/ x = "."%char -> Ascii.eqb x (translate_char c) = false.
Proof.
  intros Hx. unfold translate_char.
  destruct (Ascii.eqb c " " || Ascii.eqb c ".")%bool eqn:Hc.
  - destruct Hx as [-> | ->]; reflexivity.
  - apply orb_false_iff in Hc. destruct Hc as (Hs & Hd).
    rewrite Ascii.eqb_sym. now destruct Hx as [-> | ->].
Qed.

Lemma plog_name_append b1 b2 :
  plog_name (String.append b1 b2) =
  String.append (plog_name b1) (plog_name b2).
Proof. induction b1 as [| c b1 IH]; simpl; [reflexivity | now rewrite IH]. Qed.

Lemma occurrences_append c s1 s2 :
  occurrences c (String.append s1 s2) = occurrences c s1 + occurrences c s2.
Proof.
  induction s1 as [| c' s1 IH]; simpl; [reflexivity |]. rewrite IH. lia.
Qed.

Lemma plog_name_clean bucket x :
  x = " "%char \/ x = "."%char -> occurrences x (plog_name bucket) = 0.
Proof.
  intros Hx. induction bucket as [| c rest IH]; [reflexivity |].
  cbn [plog_name occurrences].
  now rewrite (translate_char_not c x Hx), IH.
Qed.

(** X1: the name under which a job logs has the length of the bucket name
    plus the fixed affixes, holds no space, and holds one dot only, the one
    after [s3-janitor], so every job logs as a direct child of [s3-janitor];
    translating twice changes nothing, and a name is left as it is exactly
    when it has no space and no dot.  Bucket names that differ only by a dot
    against an underscore log under the same name. *)
Theorem worker_logger_name (bucket : string) :
  String.length (plog_name bucket) = String.length bucket /\
  occurrences " " (plog bucket) = 0 /\
  occurrences "." (plog bucket) = 1 /\
  plog_name (plog_name bucket) = plog_name bucket /\
  (plog_name bucket = bucket <->
   occurrences " " bucket = 0 /\ occurrences "." bucket = 0) /\
  (forall b1 b2,
      plog (String.append b1 (String.append "." b2)) =
      plog (String.append b1 (String.append "_" b2))).
Proof.
  split; [| split; [| split; [| split; [| split]]]].
  - induction bucket as [| c rest IH]; simpl; [reflexivity | now rewrite IH].
  - unfold plog. rewrite !occurrences_append, plog_name_clean by now left.
    reflexivity.
  - unfold plog. rewrite !occurrences_append, plog_name_clean by now right.
    reflexivity.
  - induction bucket as [| c rest IH]; simpl; [reflexivity |].
    now rewrite translate_char_fixed, IH.
  - induction bucket as [| c rest IH]; [now split |].
    cbn [plog_name occurrences]. unfold translate_char at 1.
    rewrite (Ascii.eqb_sym " " c), (Ascii.eqb_sym "." c).
    destruct (Ascii.eqb c " ") eqn:Hs; simpl.
    { split; [| intros (H & _); discriminate].
      intros H. injection H as H _. apply Ascii.eqb_eq in Hs. subst c.
      discriminate. }
    destruct (Ascii.eqb c ".") eqn:Hd; simpl.
    { split; [| intros (_ & H); discriminate].
      intros H. injection H as H _. apply Ascii.eqb_eq in Hd. subst c.
      discriminate. }
    split.
    + intros H. injection H as H. now apply IH.
    + intros H. f_equal. now apply IH.
  - intros b1 b2. unfold plog. now rewrite !plog_name_append.
Qed.

(** ** The cutoff and the number of days *)

Lemma cutoff_of_inv today max_days c :
  cutoff_of today max_days = inr c ->
  (1 <= today - max_days <= 3652059)%Z /\
  c = ((today - max_days - 1) * 86400000000)%Z.
Proof.
  unfold cutoff_of, min_ordinal, max_ordinal, us_per_day.
  destruct ((1 <=? today - max_days) && (today - max_days <=? 3652059))%Z
    eqn:Hr; [| discriminate].
  intros [= <-]. apply andb_true_iff in Hr. destruct Hr as (H1 & H2).
  apply Z.leb_le in H1, H2. now split.
Qed.

Lemma cutoff_of_overflow today max_days :
  ~ (1 <= today - max_days <= 3652059)%Z ->
  cutoff_of today max_days = inl OverflowError.
Proof.
  intros Hr. unfold cutoff_of, min_ordinal, max_ordinal.
  destruct ((1 <=? today - max_days) && (today - max_days <=? 3652059))%Z
    eqn:Hb; [| reflexivity].
  apply andb_true_iff in Hb. destruct Hb as (H1 & H2).
  apply Z.leb_le in H1, H2. lia.
Qed.

(** The keys a run sends when it deletes and nothing fails. *)
Lemma purge_sent w max_days ltd h cutoff :
  cutoff_of (date_today w h) max_days = inr cutoff ->
  reliable w -> clean (paginate w) ->
  delete_calls (snd (purge w max_days ltd false h)) =
  batches cutoff ltd (paginate w) /\
  concat (delete_calls (snd (purge w max_days ltd false h))) =
  eligible_keys cutoff (listed (paginate w)).
Proof.
  intros Hc Hw Hit.
  rewrite (purge_run w max_days ltd false h cutoff Hc (or_intror Hw) Hit).
  cbn [snd]. unfold batches. destruct ltd.
  - destruct (purge_trace_global (date_today w h) cutoff (paginate w))
      as (-> & _).
    split; [reflexivity | apply chunks_of_concat].
  - destruct (purge_trace_per_page (date_today w h) cutoff (paginate w))
      as (-> & _).
    split; [reflexivity | apply concat_page_batches].
Qed.

(** X2: [purge] can compute its cutoff exactly when the day [max_days]
    before today is a date (between 0001-01-01 and 9999-12-31); otherwise it
    ends with [OverflowError] right after reading the date, under both
    policies and dry or not, so a run that makes any call to the service had
    a cutoff. *)
Theorem purge_overflow_makes_no_call w max_days ltd dry h :
  let day := (date_today w h - max_days)%Z in
  ((exists cutoff, cutoff_of (date_today w h) max_days = inr cutoff) <->
   (1 <= day <= 3652059)%Z) /\
  (~ (1 <= day <= 3652059)%Z ->
   purge w max_days ltd dry h =
   (inl OverflowError, [Today (date_today w h)])) /\
  (calls (snd (purge w max_days ltd dry h)) <> [] ->
   (1 <= day <= 3652059)%Z).
Proof.
  intros day.
  assert (Hover : ~ (1 <= day <= 3652059)%Z ->
                  purge w max_days ltd dry h =
                  (inl OverflowError, [Today (date_today w h)])).
  { intros Hr. unfold purge, bind, compute_cutoff.
    now rewrite (cutoff_of_overflow _ _ Hr). }
  split; [| split; [exact Hover |]].
  - split.
    + intros (c & Hc). now apply cutoff_of_inv in Hc.
    + intros Hr.
      destruct (cutoff_of (date_today w h) max_days) as [e | c] eqn:Hc;
        [| eauto].
      unfold cutoff_of, min_ordinal, max_ordinal in Hc.
      destruct ((1 <=? date_today w h - max_days) &&
                (date_today w h - max_days <=? 3652059))%Z eqn:Hb;
        [discriminate |].
      apply andb_false_iff in Hb. subst day.
      destruct Hb as [Hb | Hb]; apply Z.leb_gt in Hb; lia.
  - intros Hcalls.
    destruct (Z_le_dec 1 day) as [H1 | H1];
      [destruct (Z_le_dec day 3652059) as [H2 | H2]; [now split |] |];
      exfalso; apply Hcalls; rewrite Hover by lia; reflexivity.
Qed.

(** Keeping 800000 days, more than have passed since 0001-01-01. *)
Lemma purge_overflow_makes_no_call_witness :
  let w := Examples.bucket_of Examples.listing2500 in
  purge w 800000 false false [] =
  (inl OverflowError, [Today Examples.march31]).
Proof.
  intros w.
  destruct (purge_overflow_makes_no_call w 800000 false false [])
    as (_ & H & _).
  apply H. cbn. lia.
Defined.

Lemma purge_without_cutoff w max_days ltd dry h e :
  cutoff_of (date_today w h) max_days = inl e ->
  purge w max_days ltd dry h = (inl e, [Today (date_today w h)]).
Proof.
  intros Hc. unfold purge, bind, compute_cutoff. now rewrite Hc.
Qed.

(** X3: keeping more days never deletes more, as long as the run that
    keeps fewer days has a cutoff (with a [max_days] so far below zero that
    the day is no date any more, that run ends with [OverflowError] and
    deletes nothing): with the same date, if the larger [max_days] has a
    cutoff too, it is an earlier one and every object eligible under it is
    eligible under the smaller [max_days]; and on the same listing, no call
    failing, every key sent by the run that keeps more days is sent by the
    run that keeps fewer, whether the run that keeps more days has a cutoff
    or not. *)
Theorem more_days_delete_less w d1 d2 ltd h c1 :
  (d1 <= d2)%Z ->
  cutoff_of (date_today w h) d1 = inr c1 ->
  (forall c2,
      cutoff_of (date_today w h) d2 = inr c2 ->
      (c2 <= c1)%Z /\
      (forall o, eligible c2 o = true -> eligible c1 o = true)) /\
  (reliable w -> clean (paginate w) ->
   forall k,
     In k (concat (delete_calls (snd (purge w d2 ltd false h)))) ->
     In k (concat (delete_calls (snd (purge w d1 ltd false h))))).
Proof.
  intros Hd H1.
  assert (Hel : forall c2,
    cutoff_of (date_today w h) d2 = inr c2 ->
    (c2 <= c1)%Z /\
    (forall o, eligible c2 o = true -> eligible c1 o = true)).
  { intros c2 H2.
    destruct (cutoff_of_inv _ _ _ H1) as (_ & ->).
    destruct (cutoff_of_inv _ _ _ H2) as (_ & ->).
    split; [lia |].
    unfold eligible. intros o Ho. apply Z.leb_le in Ho. apply Z.leb_le. lia. }
  split; [exact Hel |].
  intros Hw Hit k.
  destruct (cutoff_of (date_today w h) d2) as [e | c2] eqn:H2.
  - rewrite (purge_without_cutoff w d2 ltd false h e H2). intros [].
  - destruct (Hel c2 eq_refl) as (_ & Hel2).
    destruct (purge_sent w d1 ltd h _ H1 Hw Hit) as (_ & ->).
    destruct (purge_sent w d2 ltd h _ H2 Hw Hit) as (_ & ->).
    unfold eligible_keys. rewrite !in_map_iff.
    intros (o & Hk & Ho). exists o. split; [assumption |].
    apply filter_In in Ho. destruct Ho as (Ho & He).
    apply filter_In. split; [assumption | now apply Hel2].
Qed.

(** Keeping 90 days against keeping 30 days: a key sent by the first run is
    sent by the second. *)
Lemma more_days_delete_less_witness :
  let w := Examples.bucket_of Examples.listing203 in
  In (Examples.key_of 0)
     (concat (delete_calls (snd (purge w 90 true false [])))) /\
  In (Examples.key_of 0)
     (concat (delete_calls (snd (purge w 30 true false [])))).
Proof.
  intros w.
  assert (H90 : In (Examples.key_of 0)
                  (concat (delete_calls (snd (purge w 90 true false [])))))
    by (left; reflexivity).
  split; [exact H90 |].
  destruct (more_days_delete_less w 30 90 true []
              ((738976 - 30 - 1) * 86400000000)%Z)
    as (_ & H); [lia | reflexivity |].
  apply H; [apply never_fails_reliable | apply listing203_clean | exact H90].
Defined.

(** X4: the cutoff is a midnight, the one that starts the day [max_days]
    before today: an object last modified on an earlier day is eligible, one
    modified on a later day is not, and one modified on that day is eligible
    only if it was modified at 00:00:00 sharp. *)
Theorem cutoff_is_midnight today max_days cutoff :
  cutoff_of today max_days = inr cutoff ->
  (cutoff mod us_per_day = 0)%Z /\
  day_of cutoff = (today - max_days)%Z /\
  forall o,
    ((day_of (LastModified o) < today - max_days)%Z ->
     eligible cutoff o = true) /\
    ((today - max_days < day_of (LastModified o))%Z ->
     eligible cutoff o = false) /\
    (day_of (LastModified o) = (today - max_days)%Z ->
     (eligible cutoff o = true <-> LastModified o = cutoff)).
Proof.
  intros Hc. destruct (cutoff_of_inv _ _ _ Hc) as (_ & ->).
  unfold day_of, eligible, us_per_day.
  split; [apply Z.mod_mul; lia |].
  split; [rewrite Z.div_mul by lia; lia |].
  intros o. split; [| split].
  - intros Hd. apply Z.leb_le.
    Z.to_euclidean_division_equations. lia.
  - intros Hd. apply Z.leb_gt.
    Z.to_euclidean_division_equations. lia.
  - intros Hd. rewrite Z.leb_le.
    Z.to_euclidean_division_equations. lia.
Qed.

(** On 2024-03-31, keeping 90 days: the cutoff starts 2024-01-01. *)
Lemma cutoff_is_midnight_witness :
  day_of Examples.jan1 = 738886%Z /\
  eligible Examples.jan1 (mkObj "late" (Examples.jan1 + 1)) = false /\
  eligible Examples.jan1 (mkObj "early" (Examples.jan1 - 1)) = true.
Proof.
  destruct (cutoff_is_midnight Examples.march31 90 Examples.jan1 eq_refl)
    as (_ & Hday & Hobj).
  split; [exact Hday |]. split.
  - destruct (Hobj (mkObj "late" (Examples.jan1 + 1))) as (_ & _ & H).
    apply not_true_is_false. intros He.
    apply (proj1 (H eq_refl)) in He. discriminate.
  - destruct (Hobj (mkObj "early" (Examples.jan1 - 1))) as (H & _).
    apply H. reflexivity.
Defined.

(** ** The sizes of the chunks *)

Lemma split_every_lengths {A} (s : nat) : 0 < s ->
  forall fuel (l : list A),
    length l <= fuel ->
    map (@length A) (split_every fuel s l) =
    repeat s (length l / s) ++
    (if length l mod s =? 0 then [] else [length l mod s])%nat.
Proof.
  intros Hs. induction fuel as [| fuel IH]; intros l Hl.
  - destruct l; simpl in Hl; [| lia]. cbn [split_every map length].
    now rewrite Nat.div_small, Nat.mod_small by lia.
  - destruct l as [| x l'].
    + cbn [split_every map length].
      now rewrite Nat.div_small, Nat.mod_small by lia.
    + cbn [split_every map]. rewrite length_firstn.
      set (n := length (x :: l')) in *.
      assert (Hn : 0 < n) by (unfold n; simpl; lia).
      rewrite IH by (rewrite length_skipn; fold n; lia).
      rewrite length_skipn. fold n.
      destruct (le_lt_dec s n) as [Hle | Hlt].
      * replace (Nat.min s n) with s by lia.
        assert (Hdiv : n / s = S ((n - s) / s)).
        { replace n with (n - s + 1 * s) at 1 by lia.
          rewrite Nat.div_add by lia. lia. }
        assert (Hmod : n mod s = (n - s) mod s).
        { replace n with (n - s + 1 * s) at 1 by lia.
          now rewrite Nat.Div0.mod_add. }
        rewrite Hdiv, Hmod. reflexivity.
      * replace (Nat.min s n) with n by lia.
        replace (n - s) with 0 by lia.
        rewrite (Nat.div_small n s), (Nat.mod_small n s) by lia.
        rewrite Nat.div_small, Nat.mod_small by lia.
        destruct (Nat.eqb_spec n 0) as [H0 | H0]; [lia | reflexivity].
Qed.

(** X5: the chunks of lines 90-93 are as few and as full as they can be:
    of [K] keys, [K / 1000] chunks of exactly 1000 keys come first and a last
    chunk holds the [K mod 1000] keys that are left, if any; so there is no
    chunk for no key, every chunk but the last is full, and the chunks put
    end to end are the keys. *)
Theorem chunks_are_full (to_be_deleted : list string) :
  let K := length to_be_deleted in
  map (@length string) (chunks_of to_be_deleted) =
  repeat 1000 (K / 1000) ++
  (if K mod 1000 =? 0 then [] else [K mod 1000])%nat /\
  (chunks_of to_be_deleted = [] <-> to_be_deleted = []) /\
  (forall i, i + 1 < length (chunks_of to_be_deleted) ->
             length (nth i (chunks_of to_be_deleted) []) = 1000) /\
  concat (chunks_of to_be_deleted) = to_be_deleted.
Proof.
  intros K.
  assert (Hsizes : map (@length string) (chunks_of to_be_deleted) =
                   repeat 1000 (K / 1000) ++
                   (if K mod 1000 =? 0 then [] else [K mod 1000])%nat).
  { rewrite chunks_of_split.
    apply (split_every_lengths chunk_size chunk_size_pos); lia. }
  split; [exact Hsizes |]. split; [| split; [| apply chunks_of_concat]].
  - split.
    + intros Hnil. pose proof (chunks_of_concat to_be_deleted) as Hc.
      now rewrite Hnil in Hc.
    + intros ->. reflexivity.
  - intros i Hi.
    assert (Hlen : length (chunks_of to_be_deleted) =
                   K / 1000 + length (if K mod 1000 =? 0 then []
                                      else [K mod 1000])%nat).
    { rewrite <- (length_map (@length string)), Hsizes, length_app.
      now rewrite repeat_length. }
    assert (Hi' : i < K / 1000).
    { destruct (K mod 1000 =? 0)%nat; cbn [length] in Hlen; lia. }
    rewrite <- (map_nth (@length string) (chunks_of to_be_deleted) [] i).
    rewrite Hsizes, app_nth1 by now rewrite repeat_length.
    now apply nth_repeat_lt.
Qed.

(** Of 2500 keys, the second chunk is full. *)
Lemma chunks_are_full_witness :
  length (nth 1 (chunks_of (map Examples.key_of (seq 0 2500))) []) = 1000.
Proof.
  destruct (chunks_are_full (map Examples.key_of (seq 0 2500)))
    as (_ & _ & H & _).
  apply H. rewrite chunks_of_length. vm_compute. lia.
Defined.

(** ** What a run has deleted when it stops *)

Lemma page_batches_app cutoff it1 it2 :
  page_batches cutoff (it1 ++ it2) =
  page_batches cutoff it1 ++ page_batches cutoff it2.
Proof. unfold page_batches, page_queues. now rewrite map_app, filter_app. Qed.

Lemma concat_batches cutoff ltd it :
  concat (batches cutoff ltd it) = eligible_keys cutoff (listed it).
Proof.
  unfold batches. destruct ltd;
    [apply chunks_of_concat | apply concat_page_batches].
Qed.

(** In every run the delete calls, the failed one included, are the first
    of the batches of the listing. *)
Lemma purge_delete_calls_prefix w max_days ltd dry h cutoff :
  cutoff_of (date_today w h) max_days = inr cutoff ->
  exists rest,
    batches cutoff ltd (paginate w) =
    delete_calls (snd (purge w max_days ltd dry h)) ++ rest /\
    (dry = false -> fst (purge w max_days ltd dry h) = inr tt -> rest = []).
Proof.
  intros Hcut.
  destruct (purge_cases w max_days ltd dry h)
    as [e He | c He Hit
       | c pre r post e tail He Hit Hpre Hf
       | c pre chunk post e He Hit Hdry Hch]; cbn [fst snd];
    try (rewrite Hcut in He; injection He as <-); try congruence.
  - destruct dry.
    + exists (batches cutoff ltd (paginate w)).
      rewrite purge_trace_dry. split; [reflexivity | discriminate].
    + exists []. rewrite app_nil_r. split; [| reflexivity].
      unfold batches. destruct ltd.
      * now destruct (purge_trace_global (date_today w h) cutoff (paginate w))
          as (-> & _).
      * now destruct (purge_trace_per_page (date_today w h) cutoff
                        (paginate w)) as (-> & _).
  - cbn [delete_calls].
    rewrite delete_calls_app, loop_trace_delete_calls.
    assert (Hnone : forall rest',
      exists rest,
        batches cutoff ltd (paginate w) =
        ((if ltd || dry then [] else page_batches cutoff pre) ++ []) ++ rest /\
        (dry = false -> @inl exn unit e = inr tt -> rest = rest')).
    { intros rest'. rewrite app_nil_r.
      destruct (ltd || dry) eqn:Hb.
      - exists (batches cutoff ltd (paginate w)). split; [reflexivity |].
        discriminate.
      - apply orb_false_iff in Hb. destruct Hb as (-> & ->).
        exists (page_batches cutoff (r :: post)). split; [| discriminate].
        unfold batches. rewrite Hit. apply page_batches_app. }
    destruct Hf as [e | | objs e Hltd Hdry Hne].
    + apply (Hnone []).
    + apply (Hnone []).
    + subst ltd dry. cbn [orb].
      unfold failing_page_trace. cbn [delete_calls].
      rewrite delete_calls_app, delete_calls_queued. cbn [app delete_calls].
      exists (page_batches cutoff post). split; [| discriminate].
      unfold batches. rewrite Hit, page_batches_app, <- app_assoc.
      f_equal. unfold page_batches at 1, page_queues.
      cbn [map filter page_objs].
      destruct (eligible_keys cutoff objs) as [| k q]; [congruence |].
      reflexivity.
  - subst dry. cbn [delete_calls].
    rewrite delete_calls_app, loop_trace_delete_calls.
    destruct ltd.
    2:{ unfold leftover in Hch. rewrite chunks_of_nil in Hch.
        now destruct pre. }
    cbn [orb app]. unfold failing_final_trace. cbn [delete_calls].
    rewrite delete_calls_app.
    destruct (chunk_trace_calls pre 1
                (length (chunks_of (leftover cutoff true (paginate w)))))
      as (-> & _).
    cbn [delete_calls]. exists post. split; [| discriminate].
    unfold batches. unfold leftover in Hch. rewrite Hch.
    now rewrite <- app_assoc.
Qed.

Lemma eligible_keys_nodup cutoff objs :
  NoDup (map Key objs) -> NoDup (eligible_keys cutoff objs).
Proof.
  unfold eligible_keys.
  induction objs as [| o objs IH]; simpl; intros Hnd; [constructor |].
  inversion Hnd as [| ? ? Hnotin Hnd']; subst.
  destruct (eligible cutoff o); [| now apply IH].
  simpl. constructor; [| now apply IH].
  intros Hin. apply Hnotin. apply in_map_iff in Hin.
  destruct Hin as (o' & Hk & Ho'). apply filter_In in Ho'.
  rewrite <- Hk. apply in_map. tauto.
Qed.

(** X6: however a run ends, what it has sent to [delete_objects] is a
    first part of what a run that deletes everything sends: the delete calls,
    the failed one included, are the first batches of the listing (chunks of
    1000 under [list_then_delete], non-empty page queues under
    [delete_every_page]), in order, none skipped and none repeated; a run
    that deletes and completes has sent them all. *)
Theorem delete_calls_are_first_batches w max_days ltd dry h cutoff :
  cutoff_of (date_today w h) max_days = inr cutoff ->
  exists rest,
    batches cutoff ltd (paginate w) =
    delete_calls (snd (purge w max_days ltd dry h)) ++ rest /\
    eligible_keys cutoff (listed (paginate w)) =
    concat (delete_calls (snd (purge w max_days ltd dry h))) ++ concat rest /\
    (dry = false -> fst (purge w max_days ltd dry h) = inr tt -> rest = []).
Proof.
  intros Hc.
  destruct (purge_delete_calls_prefix w max_days ltd dry h cutoff Hc)
    as (rest & Hb & Hdone).
  exists rest. split; [exact Hb |]. split; [| exact Hdone].
  now rewrite <- concat_batches with (ltd := ltd), Hb, concat_app.
Qed.

(** 2500 eligible keys, chunked; the second delete call fails: two calls
    were made, the chunk of the last 500 keys is left. *)
Lemma delete_calls_are_first_batches_witness :
  let w := MoreExamples.flaky_bucket Examples.listing2500 in
  fst (purge w 90 true false []) = inl (ClientError "SlowDown") /\
  map (@length string) (delete_calls (snd (purge w 90 true false []))) =
  [1000; 1000] /\
  exists rest,
    batches Examples.jan1 true (paginate w) =
    delete_calls (snd (purge w 90 true false [])) ++ rest /\
    map (@length string) rest = [500].
Proof.
  intros w.
  split; [vm_compute; reflexivity |].
  assert (Hcalls : map (@length string)
                     (delete_calls (snd (purge w 90 true false []))) =
                   [1000; 1000]) by (vm_compute; reflexivity).
  split; [exact Hcalls |].
  destruct (delete_calls_are_first_batches w 90 true false [] Examples.jan1
              eq_refl) as (rest & Hb & _ & _).
  exists rest. split; [exact Hb |].
  apply (f_equal (map (@length string))) in Hb.
  rewrite map_app, Hcalls in Hb.
  assert (Hall : map (@length string)
                   (batches Examples.jan1 true (paginate w)) =
                 [1000; 1000; 500]) by (vm_compute; reflexivity).
  rewrite Hall in Hb. now injection Hb as <-.
Defined.

(** X7: when the keys of the listing are distinct, no run sends a key to
    [delete_objects] twice, neither within a call nor in two calls, whatever
    the policy and however the run ends. *)
Theorem no_key_is_sent_twice w max_days ltd dry h :
  NoDup (map Key (listed (paginate w))) ->
  NoDup (concat (delete_calls (snd (purge w max_days ltd dry h)))).
Proof.
  intros Hnd.
  destruct (cutoff_of (date_today w h) max_days) as [e | c] eqn:Hc.
  - unfold purge, bind, compute_cutoff. rewrite Hc. constructor.
  - destruct (purge_delete_calls_prefix w max_days ltd dry h c Hc)
      as (rest & Hb & _).
    apply (f_equal (@concat string)) in Hb.
    rewrite concat_batches, concat_app in Hb.
    apply (NoDup_app_remove_r _ (concat rest)).
    rewrite <- Hb. now apply eligible_keys_nodup.
Qed.

(** The five eligible keys of a listing of eight objects, each sent once. *)
Lemma no_key_is_sent_twice_witness :
  NoDup (concat (delete_calls
                   (snd (purge (Examples.bucket_of Examples.listing203)
                           90 false false [])))).
Proof.
  apply no_key_is_sent_twice.
  vm_compute. repeat (constructor; [simpl; intuition discriminate |]).
  constructor.
Defined.

(** ** The listing calls of a run *)

Lemma listings_app tr1 tr2 :
  listings (tr1 ++ tr2) = listings tr1 ++ listings tr2.
Proof. apply filter_app. Qed.

Lemma listings_queued keys : listings (queued_lines keys) = [].
Proof. induction keys; simpl; auto. Qed.

Lemma listings_page_trace cutoff ltd dry i objs :
  listings (page_trace cutoff ltd dry i objs) = [].
Proof.
  unfold page_trace. rewrite !listings_app, listings_queued.
  destruct (negb ltd && nonempty _); [| reflexivity].
  now destruct dry.
Qed.

Lemma listings_loop_trace cutoff ltd dry it : forall i,
  listings (loop_trace cutoff ltd dry it i) = list_calls it i.
Proof.
  induction it as [| r it IH]; intros i; [reflexivity |].
  cbn [loop_trace list_calls]. unfold listings in *. cbn [filter is_list].
  rewrite filter_app. fold (listings (page_trace cutoff ltd dry i
                                         (page_objs r))).
  now rewrite listings_page_trace, IH.
Qed.

Lemma listings_chunk_trace dry chunks : forall i n,
  listings (chunk_trace dry chunks i n) = [].
Proof.
  induction chunks as [| c rest IH]; intros i n; [reflexivity |].
  cbn [chunk_trace]. unfold listings in *. cbn [filter is_list].
  rewrite filter_app, IH. now destruct dry.
Qed.

Lemma listings_final_trace dry tbd : listings (final_trace dry tbd) = [].
Proof.
  unfold final_trace. destruct (nonempty tbd); [| reflexivity].
  apply listings_chunk_trace.
Qed.

Lemma listings_failing_final tbd pre chunk e :
  listings (failing_final_trace tbd pre chunk e) = [].
Proof.
  unfold failing_final_trace, listings. cbn [filter is_list].
  rewrite filter_app. fold (listings (chunk_trace false pre 1
                                         (length (chunks_of tbd)))).
  now rewrite listings_chunk_trace.
Qed.

Lemma listings_page_failure cutoff ltd dry i r e tail :
  page_failure cutoff ltd dry i r e tail -> listings tail = [].
Proof.
  destruct 1; try reflexivity.
  unfold failing_page_trace. now rewrite listings_app, listings_queued.
Qed.

Lemma list_calls_app it1 it2 : forall i,
  list_calls (it1 ++ it2) i =
  list_calls it1 i ++ list_calls it2 (length it1 + i).
Proof.
  induction it1 as [| r it1 IH]; intros i; [reflexivity |].
  cbn [app list_calls length]. rewrite IH. do 3 f_equal. lia.
Qed.

Lemma firstn_middle {A} (pre : list A) r post :
  firstn (length pre + 1) (pre ++ r :: post) = pre ++ [r].
Proof.
  induction pre as [| a pre IH]; [reflexivity |].
  simpl. now rewrite IH.
Qed.

(** X8: whatever the policy and however a run ends, its listing calls are
    calls for the first pages of the listing, in order, numbered from 1,
    each page once; a run that completes has listed every page. *)
Theorem pages_are_listed_in_order w max_days ltd dry h :
  exists n,
    n <= length (paginate w) /\
    listings (snd (purge w max_days ltd dry h)) =
    list_calls (firstn n (paginate w)) 1 /\
    (fst (purge w max_days ltd dry h) = inr tt -> n = length (paginate w)).
Proof.
  destruct (purge_cases w max_days ltd dry h)
    as [e He | c He Hit
       | c pre r post e tail He Hit Hpre Hf
       | c pre chunk post e He Hit Hdry Hch]; cbn [fst snd].
  - exists 0. split; [lia |]. split; [reflexivity | discriminate].
  - exists (length (paginate w)). split; [lia |]. split; [| reflexivity].
    rewrite firstn_all. unfold purge_trace, listings. cbn [filter is_list].
    rewrite !filter_app.
    fold (listings (loop_trace c ltd dry (paginate w) 1)).
    fold (listings (final_trace dry (leftover c ltd (paginate w)))).
    rewrite listings_loop_trace, listings_final_trace. simpl.
    apply app_nil_r.
  - exists (length pre + 1). split; [| split; [| discriminate]].
    + rewrite Hit, length_app. simpl. lia.
    + rewrite Hit, firstn_middle, list_calls_app.
      unfold listings. cbn [filter is_list]. rewrite filter_app.
      fold (listings (loop_trace c ltd dry pre 1)).
      cbn [filter is_list]. fold (listings tail).
      rewrite listings_loop_trace, (listings_page_failure _ _ _ _ _ _ _ Hf).
      reflexivity.
  - exists (length (paginate w)). split; [lia |]. split; [| reflexivity].
    rewrite firstn_all. unfold listings. cbn [filter is_list].
    rewrite filter_app.
    fold (listings (loop_trace c ltd dry (paginate w) 1)).
    fold (listings (failing_final_trace (leftover c ltd (paginate w))
                      pre chunk e)).
    rewrite listings_loop_trace, listings_failing_final.
    apply app_nil_r.
Qed.

Lemma delete_calls_prefix_nil pre post :
  delete_calls (pre ++ post) = [] -> delete_calls pre = [].
Proof.
  rewrite delete_calls_app. intros H. now apply app_eq_nil in H.
Qed.

(** Once a part without delete calls is over and a part without listing
    calls has begun, a delete call has the listing calls before it. *)
Lemma deletes_after_listings (A B pre post : list event) :
  delete_calls A = [] -> listings B = [] ->
  A ++ B = pre ++ post -> delete_calls pre <> [] ->
  listings post = [] /\ listings pre = listings A.
Proof.
  intros HA HB Heq Hpre. symmetry in Heq.
  apply app_eq_app in Heq. destruct Heq as (l & [(Hp & Hb) | (Ha & Hp)]).
  - subst pre B. rewrite listings_app in HB.
    apply app_eq_nil in HB. destruct HB as (Hl & Hpost).
    split; [assumption |]. now rewrite listings_app, Hl, app_nil_r.
  - subst A. now apply delete_calls_prefix_nil in HA.
Qed.

(** X9: under [list_then_delete] nothing is deleted before the whole
    bucket has been listed: if a page does not arrive or has no [Contents],
    the run makes no delete call at all, and a delete call, in any run, comes
    after the listing calls for every page and before no listing call. *)
Theorem list_then_delete_lists_first w max_days dry h :
  let tr := snd (purge w max_days true dry h) in
  (delete_calls tr <> [] -> clean (paginate w)) /\
  (forall pre post,
      tr = pre ++ post -> delete_calls pre <> [] ->
      listings pre = list_calls (paginate w) 1 /\ listings post = []).
Proof.
  intros tr. subst tr.
  destruct (purge_cases w max_days true dry h)
    as [e He | c He Hit
       | c pre0 r post0 e tail He Hit Hpre Hf
       | c pre0 chunk post0 e He Hit Hdry Hch]; cbn [fst snd].
  - split; [intros H; now destruct H |].
    intros pre post Heq Hne. exfalso. apply Hne.
    apply (delete_calls_prefix_nil pre post). now rewrite <- Heq.
  - split; [intros _; assumption |].
    intros pre post Heq Hne.
    destruct (deletes_after_listings
                (Today (date_today w h) ::
                 loop_trace c true dry (paginate w) 1)
                (final_trace dry (leftover c true (paginate w)) ++
                 [Log (Finished (length (eligible_keys c
                                           (listed (paginate w)))))])
                pre post) as (Hpost & Hlist); try assumption.
    + cbn [delete_calls]. apply loop_trace_global.
    + now rewrite listings_app, listings_final_trace.
    + split; [| assumption]. rewrite Hlist.
      unfold listings. cbn [filter is_list].
      apply listings_loop_trace.
  - assert (Hnone : delete_calls
                      (Today (date_today w h) ::
                       loop_trace c true dry pre0 1 ++
                       ListObjects (length pre0 + 1) r :: tail) = []).
    { cbn [delete_calls]. rewrite delete_calls_app.
      destruct (loop_trace_global c dry pre0 1) as (-> & _).
      destruct Hf; try reflexivity. discriminate. }
    split; [intros H; now rewrite Hnone in H |].
    intros pre post Heq Hne. exfalso. apply Hne.
    apply (delete_calls_prefix_nil pre post). now rewrite <- Heq.
  - split; [intros _; assumption |].
    intros pre post Heq Hne.
    destruct (deletes_after_listings
                (Today (date_today w h) ::
                 loop_trace c true dry (paginate w) 1)
                (failing_final_trace (leftover c true (paginate w))
                   pre0 chunk e)
                pre post) as (Hpost & Hlist); try assumption.
    + cbn [delete_calls]. apply loop_trace_global.
    + apply listings_failing_final.
    + split; [| assumption]. rewrite Hlist.
      unfold listings. cbn [filter is_list].
      apply listings_loop_trace.
Qed.

(** Three pages, 2500 eligible keys: when the trace is cut after the first
    delete call, the three listing calls are before the cut. *)
Lemma list_then_delete_lists_first_witness :
  let w := Examples.bucket_of Examples.listing2500 in
  let tr := snd (purge w 90 true false []) in
  exists pre post,
    tr = pre ++ post /\
    length (delete_calls pre) = 1 /\
    listings pre = list_calls (paginate w) 1 /\ listings post = [].
Proof.
  intros w tr.
  destruct (list_then_delete_lists_first w 90 false []) as (_ & H).
  cbv zeta in H. fold tr in H.
  assert (Hcut : exists pre post,
             tr = pre ++ post /\ length (delete_calls pre) = 1).
  { exists (firstn 2511 tr), (skipn 2511 tr).
    split; [symmetry; apply firstn_skipn | vm_compute; reflexivity]. }
  destruct Hcut as (pre & post & Heq & Hone).
  exists pre, post. split; [exact Heq |]. split; [exact Hone |].
  apply H; [exact Heq |]. intros Hnil. rewrite Hnil in Hone. discriminate.
Defined.

(** A listing of three pages that goes through: the three are listed. *)
Lemma pages_are_listed_in_order_witness :
  let w := Examples.bucket_of Examples.listing203 in
  listings (snd (purge w 90 false false [])) = list_calls (paginate w) 1.
Proof.
  intros w.
  destruct (pages_are_listed_in_order w 90 false false [])
    as (n & _ & Hl & Hn).
  rewrite (Hn eq_refl), firstn_all in Hl. exact Hl.
Defined.

(** ** A dry run shows what a run would do *)

Lemma erase_deletes_app tr1 tr2 :
  erase_deletes (tr1 ++ tr2) = erase_deletes tr1 ++ erase_deletes tr2.
Proof. apply filter_app. Qed.

Lemma erase_queued keys :
  erase_deletes (queued_lines keys) = queued_lines keys.
Proof.
  induction keys as [| k keys IH]; [reflexivity |].
  unfold erase_deletes in *. simpl. now rewrite IH.
Qed.

Lemma erase_page_trace cutoff ltd i objs :
  erase_deletes (page_trace cutoff ltd false i objs) =
  page_trace cutoff ltd true i objs.
Proof.
  unfold page_trace. rewrite !erase_deletes_app, erase_queued.
  now destruct (negb ltd && nonempty _).
Qed.

Lemma erase_chunk_trace chunks : forall i n,
  erase_deletes (chunk_trace false chunks i n) = chunk_trace true chunks i n.
Proof.
  induction chunks as [| c rest IH]; intros i n; [reflexivity |].
  cbn [chunk_trace]. unfold erase_deletes in *. cbn [filter is_delete negb app].
  now rewrite IH.
Qed.

Lemma erase_final_trace tbd :
  erase_deletes (final_trace false tbd) = final_trace true tbd.
Proof.
  unfold final_trace. destruct (nonempty tbd); [| reflexivity].
  unfold erase_deletes. cbn [filter is_delete negb].
  fold (erase_deletes (chunk_trace false (chunks_of tbd) 1
                         (length (chunks_of tbd)))).
  now rewrite erase_chunk_trace.
Qed.

Lemma list_loop_preview w cutoff ltd it :
  reliable w ->
  forall i tbd total h h',
    fst (list_loop w cutoff ltd true it i tbd total h') =
    fst (list_loop w cutoff ltd false it i tbd total h) /\
    snd (list_loop w cutoff ltd true it i tbd total h') =
    erase_deletes (snd (list_loop w cutoff ltd false it i tbd total h)).
Proof.
  intros Hw. induction it as [| r it IH]; intros i tbd total h h'.
  - now split.
  - cbn [list_loop]. unfold bind at 1 3 5 7. rewrite !emit_run.
    destruct r as [[[objs |]] | e]; try (now split).
    unfold bind at 1 2 3 4.
    rewrite (page_step_run w cutoff ltd true) by now left.
    rewrite (page_step_run w cutoff ltd false) by now right.
    match goal with
    | |- context [list_loop w cutoff ltd true it ?i' ?t ?n ?h1] =>
        match goal with
        | |- context [list_loop w cutoff ltd false it i' t n ?h2] =>
            destruct (IH i' t n h2 h1) as (Hr & Htr)
        end
    end.
    destruct (list_loop w cutoff ltd true it _ _ _ _) as [r1 o1].
    destruct (list_loop w cutoff ltd false it _ _ _ _) as [r2 o2].
    cbn [fst snd] in *. subst. split; [reflexivity |].
    rewrite !erase_deletes_app, erase_page_trace. reflexivity.
Qed.

(** X10: when no delete call fails, a dry run is a faithful preview: it
    ends as the run that deletes ends, with the same result or the same
    exception, and its trace is the trace of that run without the delete
    calls, so it asks for the same pages and logs the same lines, queued
    keys, counts and chunks alike. *)
Theorem dry_run_is_a_preview w max_days ltd h :
  reliable w ->
  fst (purge w max_days ltd true h) = fst (purge w max_days ltd false h) /\
  snd (purge w max_days ltd true h) =
  erase_deletes (snd (purge w max_days ltd false h)).
Proof.
  intros Hw. unfold purge. unfold bind at 1 4 7 10. unfold compute_cutoff.
  destruct (cutoff_of (date_today w h) max_days) as [e | c];
    [now split |].
  unfold bind at 1 3 5 7.
  destruct (list_loop_preview w c ltd (paginate w) Hw 1 [] 0
              (h ++ [Today (date_today w h)])
              (h ++ [Today (date_today w h)])) as (Hr & Htr).
  destruct (list_loop w c ltd true (paginate w) 1 [] 0 _) as [r1 o1].
  destruct (list_loop w c ltd false (paginate w) 1 [] 0 _) as [r2 o2].
  cbn [fst snd] in *. subst r1 o1.
  destruct r2 as [e | [tbd total]]; [now split |].
  unfold bind. rewrite (final_delete_run w true) by now left.
  rewrite (final_delete_run w false) by now right.
  rewrite !log_run. cbn [fst snd]. split; [reflexivity |].
  change (erase_deletes
            (Today (date_today w h) ::
             o2 ++ final_trace false tbd ++ [Log (Finished total)]))
    with (Today (date_today w h) ::
          erase_deletes
            (o2 ++ final_trace false tbd ++ [Log (Finished total)])).
  now rewrite !erase_deletes_app, erase_final_trace.
Qed.

(** A listing whose second page fails: dry or not, the run stops there. *)
Lemma dry_run_is_a_preview_witness :
  let w := Examples.bucket_of Examples.listing_broken in
  purge w 90 false true [] =
  (inl (ClientError "AccessDenied"),
   erase_deletes (snd (purge w 90 false false []))).
Proof.
  intros w.
  destruct (dry_run_is_a_preview w 90 false []
              (never_fails_reliable Examples.listing_broken)) as (Hr & Htr).
  rewrite (surjective_pairing (purge w 90 false true [])), Hr, Htr.
  reflexivity.
Defined.

(** ** Where the pages are cut *)

(** X11: when every page arrives with its [Contents] and no delete call
    fails, how the service cuts the listing into pages does not matter to
    what is deleted: two listings of the same objects in the same order,
    cut differently (empty pages included), read on the same date, give the
    same keys sent in the same order and the same reported total, and under
    [list_then_delete] the very same delete calls. *)
Theorem page_cuts_do_not_matter w1 w2 max_days h1 h2 cutoff :
  cutoff_of (date_today w1 h1) max_days = inr cutoff ->
  date_today w2 h2 = date_today w1 h1 ->
  reliable w1 -> reliable w2 ->
  clean (paginate w1) -> clean (paginate w2) ->
  listed (paginate w1) = listed (paginate w2) ->
  (forall ltd,
      concat (delete_calls (snd (purge w1 max_days ltd false h1))) =
      concat (delete_calls (snd (purge w2 max_days ltd false h2)))) /\
  delete_calls (snd (purge w1 max_days true false h1)) =
  delete_calls (snd (purge w2 max_days true false h2)) /\
  (forall ltd dry,
      reported (snd (purge w1 max_days ltd dry h1)) =
      reported (snd (purge w2 max_days ltd dry h2))).
Proof.
  intros Hc1 Hd Hw1 Hw2 Hit1 Hit2 Hsame.
  assert (Hc2 : cutoff_of (date_today w2 h2) max_days = inr cutoff)
    by now rewrite Hd.
  split; [| split].
  - intros ltd.
    destruct (purge_sent w1 max_days ltd h1 cutoff Hc1 Hw1 Hit1) as (_ & ->).
    destruct (purge_sent w2 max_days ltd h2 cutoff Hc2 Hw2 Hit2) as (_ & ->).
    now rewrite Hsame.
  - destruct (purge_sent w1 max_days true h1 cutoff Hc1 Hw1 Hit1) as (-> & _).
    destruct (purge_sent w2 max_days true h2 cutoff Hc2 Hw2 Hit2) as (-> & _).
    unfold batches. now rewrite Hsame.
  - intros ltd dry.
    rewrite (purge_run w1 max_days ltd dry h1 cutoff Hc1 (or_intror Hw1) Hit1).
    rewrite (purge_run w2 max_days ltd dry h2 cutoff Hc2 (or_intror Hw2) Hit2).
    cbn [snd]. now rewrite !purge_trace_reported, Hsame.
Qed.

(** Eight objects in three pages, and in two. *)
Lemma page_cuts_do_not_matter_witness :
  let w1 := Examples.bucket_of Examples.listing203 in
  let w2 := Examples.bucket_of MoreExamples.listing203_two_pages in
  length (delete_calls (snd (purge w1 90 false false []))) = 2 /\
  length (delete_calls (snd (purge w2 90 false false []))) = 2 /\
  concat (delete_calls (snd (purge w1 90 false false []))) =
  concat (delete_calls (snd (purge w2 90 false false []))) /\
  delete_calls (snd (purge w1 90 true false [])) =
  delete_calls (snd (purge w2 90 true false [])).
Proof.
  intros w1 w2.
  assert (Hclean2 : clean MoreExamples.listing203_two_pages)
    by (repeat constructor; eexists; reflexivity).
  destruct (page_cuts_do_not_matter w1 w2 90 [] [] Examples.jan1
              eq_refl eq_refl
              (never_fails_reliable Examples.listing203)
              (never_fails_reliable MoreExamples.listing203_two_pages)
              listing203_clean Hclean2 eq_refl) as (Hkeys & Hcalls & _).
  split; [reflexivity |]. split; [reflexivity |].
  split; [apply Hkeys | exact Hcalls].
Defined.

(** ** The progress lines *)

Lemma found_lines_app tr1 tr2 :
  found_lines (tr1 ++ tr2) = found_lines tr1 ++ found_lines tr2.
Proof.
  induction tr1 as [| e tr1 IH]; [reflexivity |].
  destruct e as [| | | | []]; simpl; now rewrite ?IH.
Qed.

Lemma chunk_lines_app tr1 tr2 :
  chunk_lines (tr1 ++ tr2) = chunk_lines tr1 ++ chunk_lines tr2.
Proof.
  induction tr1 as [| e tr1 IH]; [reflexivity |].
  destruct e as [| | | | []]; simpl; now rewrite ?IH.
Qed.

Lemma lines_queued keys :
  found_lines (queued_lines keys) = [] /\
  chunk_lines (queued_lines keys) = [].
Proof. induction keys; simpl; auto. Qed.

Lemma lines_page_trace cutoff ltd dry i objs :
  found_lines (page_trace cutoff ltd dry i objs) =
  [(length (eligible_keys cutoff objs), i)] /\
  chunk_lines (page_trace cutoff ltd dry i objs) = [].
Proof.
  unfold page_trace. rewrite !found_lines_app, !chunk_lines_app.
  destruct (lines_queued (eligible_keys cutoff objs)) as (-> & ->).
  destruct (negb ltd && nonempty _); [| now split].
  now destruct dry.
Qed.

Lemma lines_loop_trace cutoff ltd dry it : forall i,
  found_lines (loop_trace cutoff ltd dry it i) =
  combine (map (@length string) (page_queues cutoff it))
          (seq i (length it)) /\
  chunk_lines (loop_trace cutoff ltd dry it i) = [].
Proof.
  induction it as [| r it IH]; intros i; [now split |].
  destruct (IH (S i)) as (IHf & IHc).
  destruct (lines_page_trace cutoff ltd dry i (page_objs r)) as (Hf & Hc).
  cbn [loop_trace found_lines chunk_lines].
  rewrite found_lines_app, chunk_lines_app, Hf, Hc, IHf, IHc.
  now split.
Qed.

(** The lines of the chunks, numbered from [i]. *)
Lemma lines_chunk_trace dry chunks : forall i n,
  found_lines (chunk_trace dry chunks i n) = [] /\
  chunk_lines (chunk_trace dry chunks i n) =
  map (fun p => (fst p, n, length (snd p)))
      (combine (seq i (length chunks)) chunks).
Proof.
  induction chunks as [| c rest IH]; intros i n; [now split |].
  destruct (IH (S i) n) as (IHf & IHc).
  cbn [chunk_trace found_lines chunk_lines].
  rewrite found_lines_app, chunk_lines_app, IHf, IHc.
  now destruct dry.
Qed.

Lemma list_sum_combine (counts : list nat) : forall i,
  list_sum (map fst (combine counts (seq i (length counts)))) =
  list_sum counts.
Proof.
  induction counts as [| n counts IH]; intros i; [reflexivity |].
  simpl. now rewrite IH.
Qed.

(** X12: in a run that completes, dry or not and under both policies,
    there is one line [Found n objects in chunk i] for each page, in order,
    [i] counting the pages from 1 and [n] being the number of eligible
    objects of that page, and the [n] add up to the total of the last
    line. *)
Theorem found_lines_add_up w max_days ltd dry h :
  fst (purge w max_days ltd dry h) = inr tt ->
  exists cutoff,
    cutoff_of (date_today w h) max_days = inr cutoff /\
    found_lines (snd (purge w max_days ltd dry h)) =
    combine (map (@length string) (page_queues cutoff (paginate w)))
            (seq 1 (length (paginate w))) /\
    reported (snd (purge w max_days ltd dry h)) =
    Some (list_sum (map fst (found_lines (snd (purge w max_days ltd dry h))))).
Proof.
  intros Hr.
  destruct (purge_completed_inv _ _ _ _ _ Hr) as (c & Hc & Hit & ->).
  exists c. split; [assumption |].
  assert (Hf : found_lines (purge_trace (date_today w h) c ltd dry
                              (paginate w)) =
               combine (map (@length string) (page_queues c (paginate w)))
                       (seq 1 (length (paginate w)))).
  { unfold purge_trace. cbn [found_lines]. rewrite !found_lines_app.
    destruct (lines_loop_trace c ltd dry (paginate w) 1) as (-> & _).
    unfold final_trace. destruct (nonempty _); [| now rewrite app_nil_r].
    cbn [found_lines].
    destruct (lines_chunk_trace dry
                (chunks_of (leftover c ltd (paginate w))) 1
                (length (chunks_of (leftover c ltd (paginate w)))))
      as (-> & _).
    now rewrite app_nil_r. }
  split; [exact Hf |].
  rewrite Hf, purge_trace_reported, <- sum_page_queues.
  rewrite <- (list_sum_combine _ 1). unfold page_queues.
  now rewrite !length_map.
Qed.

(** Pages with 2, 0 and 3 eligible objects. *)
Lemma found_lines_add_up_witness :
  let w := Examples.bucket_of Examples.listing203 in
  found_lines (snd (purge w 90 true true [])) = [(2, 1); (0, 2); (3, 3)] /\
  reported (snd (purge w 90 true true [])) = Some 5.
Proof.
  intros w.
  destruct (found_lines_add_up w 90 true true [] eq_refl)
    as (c & Hc & Hf & Hrep).
  injection Hc as <-. split; [exact Hf |].
  rewrite Hrep, Hf. reflexivity.
Defined.

Lemma map_fst_combine {A B} (l : list A) : forall l' : list B,
  length l = length l' -> map fst (combine l l') = l.
Proof.
  induction l as [| a l IH]; intros [| b l'] Hlen; try discriminate;
    [reflexivity |].
  simpl. f_equal. apply IH. now injection Hlen.
Qed.

Lemma map_snd_combine {A B} (l : list A) : forall l' : list B,
  length l = length l' -> map snd (combine l l') = l'.
Proof.
  induction l as [| a l IH]; intros [| b l'] Hlen; try discriminate;
    [reflexivity |].
  simpl. f_equal. apply IH. now injection Hlen.
Qed.

(** X13: under [list_then_delete], in a run in which nothing fails, dry
    or not, the chunks are announced by the lines
    [Deleting chunk i/n (size objects)], one for each chunk of the eligible
    keys, [i] counting from 1 to [n], [n] being [ceil(K/1000)] and the sizes
    adding up to the [K] eligible keys; a dry run announces the chunks it
    does not send. *)
Theorem chunk_lines_count_the_chunks w max_days dry h cutoff :
  cutoff_of (date_today w h) max_days = inr cutoff ->
  unfailing w dry -> clean (paginate w) ->
  let keys := eligible_keys cutoff (listed (paginate w)) in
  let lines := chunk_lines (snd (purge w max_days true dry h)) in
  lines =
  map (fun p => (fst p, length (chunks_of keys), length (snd p)))
      (combine (seq 1 (length (chunks_of keys))) (chunks_of keys)) /\
  map (fun l => fst (fst l)) lines = seq 1 (ceil_div (length keys) 1000) /\
  list_sum (map snd lines) = length keys.
Proof.
  intros Hc Hw Hit keys lines.
  assert (Hlines : lines =
    map (fun p => (fst p, length (chunks_of keys), length (snd p)))
        (combine (seq 1 (length (chunks_of keys))) (chunks_of keys))).
  { subst lines. rewrite (purge_run w max_days true dry h cutoff Hc Hw Hit).
    cbn [snd]. unfold purge_trace, leftover. fold keys.
    cbn [chunk_lines]. rewrite !chunk_lines_app.
    destruct (lines_loop_trace cutoff true dry (paginate w) 1) as (_ & ->).
    unfold final_trace. destruct (nonempty keys) eqn:Hne.
    - cbn [chunk_lines app].
      destruct (lines_chunk_trace dry (chunks_of keys) 1
                  (length (chunks_of keys))) as (_ & ->).
      apply app_nil_r.
    - destruct keys; [reflexivity | discriminate]. }
  split; [exact Hlines |]. rewrite Hlines, !map_map. cbn [fst snd].
  split.
  - rewrite <- chunks_of_length.
    transitivity (map fst (combine (seq 1 (length (chunks_of keys)))
                             (chunks_of keys))); [reflexivity |].
    apply map_fst_combine. now rewrite length_seq.
  - transitivity (list_sum (map (@length string)
                              (map snd (combine
                                 (seq 1 (length (chunks_of keys)))
                                 (chunks_of keys)))));
      [now rewrite map_map |].
    rewrite map_snd_combine by now rewrite length_seq.
    rewrite <- (chunks_of_concat keys) at 2.
    generalize (chunks_of keys). intros ls.
    induction ls as [| l ls IH]; [reflexivity |].
    cbn [map concat]. rewrite length_app, <- IH. reflexivity.
Qed.

(** 2500 eligible keys, dry: three chunks are announced, none is sent. *)
Lemma chunk_lines_count_the_chunks_witness :
  let w := Examples.bucket_of Examples.listing2500 in
  chunk_lines (snd (purge w 90 true true [])) =
  [(1, 3, 1000); (2, 3, 1000); (3, 3, 500)] /\
  delete_calls (snd (purge w 90 true true [])) = [].
Proof.
  intros w. split; [| vm_compute; reflexivity].
  destruct (chunk_lines_count_the_chunks w 90 true [] Examples.jan1 eq_refl
              (or_introl eq_refl) listing2500_clean) as (H & _).
  rewrite H. vm_compute. reflexivity.
Defined.

(** ** What [do] does before the jobs *)

(** Every way [do] can go. *)
Lemma do_cases f a h :
  do f a h =
  let dry_line := if dry_run a then [Log DryRunMode] else [] in
  if nothing_to_find a then
    (inl (SystemExit (if (target_method a =? "prefix")%string
                      then "No prefix provided"
                      else "No buckets provided")),
     dry_line)
  else
    match cutoff_of (fleet_today f) (days a) with
    | inl e => (inl (Exc e), dry_line ++ [Today (fleet_today f)])
    | inr _ =>
        match list_buckets f with
        | inl e => (inl (Exc e), do_preamble f a)
        | inr names =>
            (inr (jobs_of f a names),
             do_preamble f a ++
             exception_lines (as_completed f (jobs_of f a names)))
        end
    end.
Proof.
  unfold nothing_to_find, do, do_preamble, jobs_of, bind, lift.
  destruct (dry_run a); cbn [log emit ret app];
    destruct (target_method a =? "prefix")%string;
    match goal with
    | |- context [no_string ?x] => destruct (no_string x)
    | |- context [no_list ?x] => destruct (no_list x)
    end; cbn [raise ret app]; try reflexivity;
    destruct (cutoff_of (fleet_today f) (days a)); cbn [app];
    try reflexivity;
    destruct (list_buckets f); cbn [app]; try reflexivity;
    rewrite collect_run; cbn [app]; now rewrite ?app_nil_r.
Qed.

Lemma no_string_iff s : no_string s = true <-> s = None \/ s = Some "".
Proof.
  destruct s as [s |]; simpl; [| tauto]. rewrite String.eqb_eq.
  split; [intros ->; now right | intros [H | H]; congruence].
Qed.

Lemma no_list_iff {A} (l : option (list A)) :
  no_list l = true <-> l = None \/ l = Some [].
Proof.
  destruct l as [[| x l] |]; simpl; split; try tauto;
    try (intros [H | H]; discriminate); now right.
Qed.

(** X14: [do] exits before it touches anything when it has nothing to look
    for: with target method [prefix] and no prefix, or an empty one, it
    raises [SystemExit('No prefix provided')], whatever [--buckets] says;
    with any other target method and no bucket names it raises
    [SystemExit('No buckets provided')]; it has then read no date, listed no
    bucket and started no job, and it raises [SystemExit] in no other
    case. *)
Theorem do_exits_without_target f a h :
  let dry_line := if dry_run a then [Log DryRunMode] else [] in
  (target_method a = "prefix" ->
   prefix a = None \/ prefix a = Some "" ->
   do f a h = (inl (SystemExit "No prefix provided"), dry_line)) /\
  (target_method a <> "prefix" ->
   buckets a = None \/ buckets a = Some [] ->
   do f a h = (inl (SystemExit "No buckets provided"), dry_line)) /\
  (forall msg,
      fst (do f a h) = inl (SystemExit msg) ->
      (target_method a = "prefix" /\
       (prefix a = None \/ prefix a = Some "")) \/
      (target_method a <> "prefix" /\
       (buckets a = None \/ buckets a = Some []))).
Proof.
  intros dry_line. rewrite do_cases. fold dry_line. cbv zeta.
  unfold nothing_to_find. split; [| split].
  - intros Hm Hp. rewrite Hm. cbn [String.eqb Ascii.eqb Bool.eqb].
    apply no_string_iff in Hp. now rewrite Hp.
  - intros Hm Hb. apply String.eqb_neq in Hm. rewrite Hm.
    apply no_list_iff in Hb. now rewrite Hb.
  - intros msg.
    destruct (target_method a =? "prefix")%string eqn:Hm.
    + destruct (no_string (prefix a)) eqn:Hp.
      * intros _. left. split; [now apply String.eqb_eq |].
        now apply no_string_iff.
      * destruct (cutoff_of _ _); [discriminate |].
        destruct (list_buckets f); discriminate.
    + destruct (no_list (buckets a)) eqn:Hb.
      * intros _. right. split; [now apply String.eqb_neq |].
        now apply no_list_iff.
      * destruct (cutoff_of _ _); [discriminate |].
        destruct (list_buckets f); discriminate.
Qed.

(** Bucket names given, but the target method left at [prefix]. *)
Lemma do_exits_without_target_witness :
  do Examples.fleet3
    (mkArgs 90 false "prefix" None (Some ["logs-a"]) "list_then_delete") [] =
  (inl (SystemExit "No prefix provided"), []).
Proof.
  destruct (do_exits_without_target Examples.fleet3
              (mkArgs 90 false "prefix" None (Some ["logs-a"])
                 "list_then_delete") []) as (H & _).
  apply H; [reflexivity | now left].
Defined.

(** X15: what fails in [do] before the jobs are started is not caught:
    when the day [days] before today is no date, [do] ends with
    [OverflowError] before it lists the buckets, and when
    [client.list_buckets()] fails, [do] ends with its exception; no job has
    run and nothing is logged about it. *)
Theorem do_fails_before_the_jobs f a h e :
  nothing_to_find a = false ->
  let dry_line := if dry_run a then [Log DryRunMode] else [] in
  (cutoff_of (fleet_today f) (days a) = inl e ->
   do f a h = (inl (Exc e), dry_line ++ [Today (fleet_today f)])) /\
  ((exists cutoff, cutoff_of (fleet_today f) (days a) = inr cutoff) ->
   list_buckets f = inl e ->
   do f a h = (inl (Exc e), do_preamble f a)).
Proof.
  intros Hg dry_line. rewrite do_cases, Hg. fold dry_line. cbv zeta.
  split.
  - now intros ->.
  - intros (c & ->) ->. reflexivity.
Qed.

(** The service refuses to list the buckets. *)
Lemma do_fails_before_the_jobs_witness :
  do MoreExamples.fleet_denied Examples.by_prefix [] =
  (inl (Exc (ClientError "AccessDenied")),
   [Today Examples.march31; Log (CutoffDate 738886); ListBuckets]).
Proof.
  destruct (do_fails_before_the_jobs MoreExamples.fleet_denied
              Examples.by_prefix [] (ClientError "AccessDenied") eq_refl)
    as (_ & H).
  apply H; [exists Examples.jan1; reflexivity | reflexivity].
Defined.

(** ** Which buckets get a job *)







(** X18: when no bucket of the service matches, [do] starts no job and
    returns as after a clean run: it raises nothing and logs nothing beyond
    its first lines. *)
Theorem no_match_no_job f a h cutoff names :
  nothing_to_find a = false ->
  cutoff_of (fleet_today f) (days a) = inr cutoff ->
  list_buckets f = inr names ->
  targets a names = [] ->
  as_completed f [] = [] ->
  do f a h = (inr [], do_preamble f a).
Proof.
  intros Hg Hc Hn Ht Hnone. rewrite do_cases, Hg, Hc, Hn. cbv zeta.
  unfold jobs_of. rewrite Ht. cbn [map]. rewrite Hnone. cbn [exception_lines
    flat_map]. now rewrite app_nil_r.
Qed.

(** A prefix that no bucket has. *)
Lemma no_match_no_job_witness :
  do Examples.fleet3
    (mkArgs 90 false "prefix" (Some "tmp-") None "list_then_delete") [] =
  (inr [], [Today Examples.march31; Log (CutoffDate 738886); ListBuckets]).
Proof.
  apply (no_match_no_job Examples.fleet3
           (mkArgs 90 false "prefix" (Some "tmp-") None "list_then_delete")
           [] Examples.jan1 ["logs-a"; "other"; "logs-b"; "logs-c"]);
    reflexivity.
Defined.

(** ** A dry run of the whole fleet *)



